(** * ReplayMemory: a shallow embedding of [common/replay_memory/replay_memory.py]

    The experience-replay buffer of the DeepRL repository, modelled as a
    record of parallel arrays and cursors, with every method written as a
    function in a state-and-exception monad.

    Modelling conventions.
    - Python integers are [Z]; NumPy arrays are lists, indexed the way
      NumPy does it (a negative index counts from the end, an index
      outside the array raises [IndexError]).
    - Floating-point values ([float32] rewards, normalised pixels) are
      the rationals they denote, [Q]; infinities and NaN are not
      represented.  Where a reward is stored ([add], the discount loop
      of [propagate_rewards]) the value is rounded as the code rounds
      it, to the nearest [float32] with ties to even; the theorems about
      stored rewards assume that the values stay below the overflow
      threshold.  The optional passes of [propagate_rewards] that
      precede the loop and the scaling of pixels by 255 are computed
      exactly.
    - An integer stored with [a[i] = v] is reduced to the element type
      of the array ([uint8], [int32]) the way C converts a machine
      integer; an integer that does not fit a C [long], which NumPy
      refuses, is outside the typed inputs.  Frames are taken to have
      the shape and the element type of the image array, so that the
      only element assignment that can fail on its operand is the
      [full_state] row assignment, whose operand length is visible in
      the source.
    - An exception leaves the object in the state it had when the
      exception was raised: the monad returns the state on both paths.
    - The random generator is an unbounded sequence of raw integers;
      [randint] reduces the integer it reads into the requested range.
      The sampling loops, which have no bound in the source, take the
      number of iterations to evaluate and answer [None] when it is
      spent with the loop still running.
    - NumPy is the one the code was written for: [np.int] names the
      integer type, and an index outside the array is an error for
      [np.delete] as it is for [take]. *)

From Stdlib Require Import ZArith QArith Qabs Lia.
From stdpp Require Import base gmap strings list.

Open Scope Z_scope.

(** ** Exceptions and outcomes *)

Inductive exn :=
| NameError | ValueError | IndexError | KeyError | TypeError
| ZeroDivisionError | AssertionError | FileNotFoundError | UnpicklingError.

Inductive outcome (A : Type) :=
| Ret (a : A)
| Raise (e : exn).
Arguments Ret {A} a.
Arguments Raise {A} e.

#[export] Instance outcome_ret : MRet outcome := fun A a => Ret a.
#[export] Instance outcome_bind : MBind outcome := fun A B f m =>
  match m with
  | Ret a => f a
  | Raise e => Raise e
  end.

Definition is_raise {A} (o : outcome A) : bool :=
  match o with Ret _ => false | Raise _ => true end.

(** ** NumPy and Python primitives *)

(** Resolution of an integer index against an axis of length [n]. *)
Definition np_index (n : nat) (i : Z) : option nat :=
  if (0 <=? i) && (i <? Z.of_nat n) then Some (Z.to_nat i)
  else if (- Z.of_nat n <=? i) && (i <? 0) then Some (Z.to_nat (Z.of_nat n + i))
  else None.

(** [a[i] = v] *)
Definition setitem {A} (a : list A) (i : Z) (v : A) : outcome (list A) :=
  match np_index (length a) i with
  | Some j => Ret (<[j:=v]> a)
  | None => Raise IndexError
  end.

(** [a[i]] and [a.take(i, mode='raise')] for a scalar index *)
Definition getitem {A} (a : list A) (i : Z) : outcome A :=
  match np_index (length a) i with
  | Some j => match a !! j with Some x => Ret x | None => Raise IndexError end
  | None => Raise IndexError
  end.

(** [a.take(i, mode='wrap')] for a scalar index: the index is reduced
    modulo the axis length; taking from an empty axis is an error. *)
Definition getitem_wrap {A} (a : list A) (i : Z) : outcome A :=
  match a !! Z.to_nat (i mod Z.of_nat (length a)) with
  | Some x => Ret x
  | None => Raise IndexError
  end.

Inductive take_mode := mode_raise | mode_wrap.

Definition take1 {A} (mode : take_mode) (a : list A) (i : Z) : outcome A :=
  match mode with
  | mode_raise => getitem a i
  | mode_wrap => getitem_wrap a i
  end.

(** [a.take(indices, axis=0, mode=mode)] *)
Fixpoint take {A} (mode : take_mode) (a : list A) (indices : list Z)
  : outcome (list A) :=
  match indices with
  | [] => Ret []
  | i :: rest =>
      x ← take1 mode a i;
      xs ← take mode a rest;
      mret (x :: xs)
  end.

(** [np.arange(lo, hi)] *)
Definition arange (lo hi : Z) : list Z :=
  map (fun i => lo + Z.of_nat i) (seq 0 (Z.to_nat (hi - lo))).

(** [np.any] over an integer array *)
Definition np_any (a : list Z) : bool := existsb (fun t => negb (t =? 0)) a.

(** [np.zeros(n)]: a negative dimension is refused. *)
Definition np_zeros (n : Z) : outcome (list Z) :=
  if n <? 0 then Raise ValueError else Ret (replicate (Z.to_nat n) 0).

(** [np.zeros((n, m))] *)
Definition np_zeros2 (n m : Z) : outcome (list (list Z)) :=
  if (n <? 0) || (m <? 0) then Raise ValueError
  else Ret (replicate (Z.to_nat n) (replicate (Z.to_nat m) 0)).

(** Broadcasting of a one-dimensional operand onto a row of width [w]:
    the lengths agree, or the operand has length one and is repeated. *)
Definition broadcast_row (w : nat) (v : list Z) : outcome (list Z) :=
  if bool_decide (length v = w) then Ret v
  else match v with
       | [x] => Ret (replicate w x)
       | _ => Raise ValueError
       end.

(** [a[i] = v] on a two-dimensional array: the index is resolved first,
    then the operand is broadcast onto the row. *)
Definition setrow (a : list (list Z)) (i : Z) (v : list Z)
  : outcome (list (list Z)) :=
  match np_index (length a) i with
  | Some j =>
      match a !! j with
      | Some old => row ← broadcast_row (length old) v; mret (<[j:=row]> a)
      | None => Raise IndexError
      end
  | None => Raise IndexError
  end.

(** The element types of the arrays.  An integer stored in a [uint8] or
    [int32] array is reduced by the C conversion from a machine integer:
    300 is stored as 44 in a [uint8] array, [2^31] as [-2^31] in an
    [int32] one. *)
Definition to_uint8 (v : Z) : Z := v mod 256.
Definition to_int32 (v : Z) : Z := (v + 2 ^ 31) mod 2 ^ 32 - 2 ^ 31.

(** The integer nearest to [n / d], ties going to the even one, for
    [0 <= n] and [0 < d]. *)
Definition round_half_even (n d : Z) : Z :=
  let q := n / d in
  let r := n mod d in
  if 2 * r <? d then q
  else if d <? 2 * r then q + 1
  else if Z.even q then q else q + 1.

(** The integer part of the binary logarithm of [n / d], for [0 < n] and
    [0 < d]. *)
Definition floor_log2 (n d : Z) : Z :=
  let e := Z.log2 n - Z.log2 d in
  if (if 0 <=? e then d * 2 ^ e <=? n else d <=? n * 2 ^ (- e))
  then e else e - 1.

(** Rounding to the nearest value of a binary floating-point format
    with [prec] significant bits whose smallest positive value is
    [2 ^ emin], ties going to the even significand (the IEEE 754 default
    rounding, gradual underflow included).  The exponent has no upper
    bound here: the result is the one of the format as long as it is
    below the format's overflow threshold. *)
Definition round_float (prec emin : Z) (q : Q) : Q :=
  let n := Z.abs (Qnum q) in
  let d := Z.pos (Qden q) in
  if n =? 0 then 0%Q
  else
    let ex := Z.max (floor_log2 n d - (prec - 1)) emin in
    let m :=
      if 0 <=? ex then round_half_even n (d * 2 ^ ex)
      else round_half_even (n * 2 ^ (- ex)) d in
    Qred (inject_Z (Z.sgn (Qnum q) * m) * Qpower 2 ex).

(** [np.float32(q)] and [float(q)] *)
Definition to_float32 : Q -> Q := round_float 24 (-149).
Definition to_float64 : Q -> Q := round_float 53 (-1074).

Arguments round_float : simpl never.
Arguments to_float32 : simpl never.
Arguments to_float64 : simpl never.
Arguments to_uint8 : simpl never.
Arguments to_int32 : simpl never.

(** [a % b] *)
Definition py_mod (a b : Z) : outcome Z :=
  if b =? 0 then Raise ZeroDivisionError else Ret (a mod b).

(** [range(start, stop, -1)] *)
Definition range_down (start stop : Z) : list Z :=
  map (fun i => start - Z.of_nat i) (seq 0 (Z.to_nat (start - stop))).

(** [a[st:en]] with Python's clamping of slice bounds *)
Definition slice_bound (n : nat) (i : Z) : nat :=
  if i <? 0 then Z.to_nat (Z.max 0 (Z.of_nat n + i))
  else Z.to_nat (Z.min i (Z.of_nat n)).

Definition py_slice {A} (a : list A) (st en : Z) : list A :=
  let s := slice_bound (length a) st in
  let e := slice_bound (length a) en in
  firstn (e - s) (skipn s a).

(** Resolution of a name at run time: local scope, then module globals
    (the builtins hold none of the names looked up below). *)
Definition load_name (locals globals : list string) (name : string)
  : outcome unit :=
  if bool_decide (name ∈ locals ++ globals) then Ret tt else Raise NameError.

(** Names bound at module level in replay_memory.py. *)
Definition module_globals : list string :=
  ["np"; "time"; "logging"; "save_compressed_images"; "pickle"; "logger";
   "ReplayMemory"; "test_1"; "test_2"; "argparse"; "parser"; "args"]%string.

(** ** The buffer *)

Definition Frame : Type := list (list Q).

Record ReplayMemory := mkReplayMemory {
  width : Z;
  height : Z;
  max_steps : Z;
  phi_length : Z;
  num_actions : Z;
  full_state_size : Z;
  clip_reward : bool;
  imgs : list Frame;
  actions : list Z;
  rewards : list Q;
  terminal : list Z;
  lives : list Z;
  loss_life : list Z;
  gain_life : list Z;
  full_state : list (list Z);
  size : Z;
  imgs_normalized : bool;
  wrap_memory : bool;
  bottom : Z;
  top : Z
}.

(** Field updates, [self.field = v]. *)

Definition set_width (v : Z) (r : ReplayMemory) : ReplayMemory :=
  let 'mkReplayMemory w h ms phi na fss cr im ac rw te li ll gl fu sz nrm
      wm bo tp := r in
  mkReplayMemory v h ms phi na fss cr im ac rw te li ll gl fu sz nrm wm bo
    tp.

Definition set_height (v : Z) (r : ReplayMemory) : ReplayMemory :=
  let 'mkReplayMemory w h ms phi na fss cr im ac rw te li ll gl fu sz nrm
      wm bo tp := r in
  mkReplayMemory w v ms phi na fss cr im ac rw te li ll gl fu sz nrm wm bo
    tp.

Definition set_max_steps (v : Z) (r : ReplayMemory) : ReplayMemory :=
  let 'mkReplayMemory w h ms phi na fss cr im ac rw te li ll gl fu sz nrm
      wm bo tp := r in
  mkReplayMemory w h v phi na fss cr im ac rw te li ll gl fu sz nrm wm bo
    tp.

Definition set_phi_length (v : Z) (r : ReplayMemory) : ReplayMemory :=
  let 'mkReplayMemory w h ms phi na fss cr im ac rw te li ll gl fu sz nrm
      wm bo tp := r in
  mkReplayMemory w h ms v na fss cr im ac rw te li ll gl fu sz nrm wm bo tp.

Definition set_num_actions (v : Z) (r : ReplayMemory) : ReplayMemory :=
  let 'mkReplayMemory w h ms phi na fss cr im ac rw te li ll gl fu sz nrm
      wm bo tp := r in
  mkReplayMemory w h ms phi v fss cr im ac rw te li ll gl fu sz nrm wm bo
    tp.

Definition set_full_state_size (v : Z) (r : ReplayMemory) : ReplayMemory :=
  let 'mkReplayMemory w h ms phi na fss cr im ac rw te li ll gl fu sz nrm
      wm bo tp := r in
  mkReplayMemory w h ms phi na v cr im ac rw te li ll gl fu sz nrm wm bo tp.

Definition set_clip_reward (v : bool) (r : ReplayMemory) : ReplayMemory :=
  let 'mkReplayMemory w h ms phi na fss cr im ac rw te li ll gl fu sz nrm
      wm bo tp := r in
  mkReplayMemory w h ms phi na fss v im ac rw te li ll gl fu sz nrm wm bo
    tp.

Definition set_imgs (v : list Frame) (r : ReplayMemory) : ReplayMemory :=
  let 'mkReplayMemory w h ms phi na fss cr im ac rw te li ll gl fu sz nrm
      wm bo tp := r in
  mkReplayMemory w h ms phi na fss cr v ac rw te li ll gl fu sz nrm wm bo
    tp.

Definition set_actions (v : list Z) (r : ReplayMemory) : ReplayMemory :=
  let 'mkReplayMemory w h ms phi na fss cr im ac rw te li ll gl fu sz nrm
      wm bo tp := r in
  mkReplayMemory w h ms phi na fss cr im v rw te li ll gl fu sz nrm wm bo
    tp.

Definition set_rewards (v : list Q) (r : ReplayMemory) : ReplayMemory :=
  let 'mkReplayMemory w h ms phi na fss cr im ac rw te li ll gl fu sz nrm
      wm bo tp := r in
  mkReplayMemory w h ms phi na fss cr im ac v te li ll gl fu sz nrm wm bo
    tp.

Definition set_terminal (v : list Z) (r : ReplayMemory) : ReplayMemory :=
  let 'mkReplayMemory w h ms phi na fss cr im ac rw te li ll gl fu sz nrm
      wm bo tp := r in
  mkReplayMemory w h ms phi na fss cr im ac rw v li ll gl fu sz nrm wm bo
    tp.

Definition set_lives (v : list Z) (r : ReplayMemory) : ReplayMemory :=
  let 'mkReplayMemory w h ms phi na fss cr im ac rw te li ll gl fu sz nrm
      wm bo tp := r in
  mkReplayMemory w h ms phi na fss cr im ac rw te v ll gl fu sz nrm wm bo
    tp.

Definition set_loss_life (v : list Z) (r : ReplayMemory) : ReplayMemory :=
  let 'mkReplayMemory w h ms phi na fss cr im ac rw te li ll gl fu sz nrm
      wm bo tp := r in
  mkReplayMemory w h ms phi na fss cr im ac rw te li v gl fu sz nrm wm bo
    tp.

Definition set_gain_life (v : list Z) (r : ReplayMemory) : ReplayMemory :=
  let 'mkReplayMemory w h ms phi na fss cr im ac rw te li ll gl fu sz nrm
      wm bo tp := r in
  mkReplayMemory w h ms phi na fss cr im ac rw te li ll v fu sz nrm wm bo
    tp.

Definition set_full_state (v : list (list Z)) (r : ReplayMemory) : ReplayMemory :=
  let 'mkReplayMemory w h ms phi na fss cr im ac rw te li ll gl fu sz nrm
      wm bo tp := r in
  mkReplayMemory w h ms phi na fss cr im ac rw te li ll gl v sz nrm wm bo tp.

Definition set_size (v : Z) (r : ReplayMemory) : ReplayMemory :=
  let 'mkReplayMemory w h ms phi na fss cr im ac rw te li ll gl fu sz nrm
      wm bo tp := r in
  mkReplayMemory w h ms phi na fss cr im ac rw te li ll gl fu v nrm wm bo
    tp.

Definition set_imgs_normalized (v : bool) (r : ReplayMemory) : ReplayMemory :=
  let 'mkReplayMemory w h ms phi na fss cr im ac rw te li ll gl fu sz nrm
      wm bo tp := r in
  mkReplayMemory w h ms phi na fss cr im ac rw te li ll gl fu sz v wm bo tp.

Definition set_wrap_memory (v : bool) (r : ReplayMemory) : ReplayMemory :=
  let 'mkReplayMemory w h ms phi na fss cr im ac rw te li ll gl fu sz nrm
      wm bo tp := r in
  mkReplayMemory w h ms phi na fss cr im ac rw te li ll gl fu sz nrm v bo
    tp.

Definition set_bottom (v : Z) (r : ReplayMemory) : ReplayMemory :=
  let 'mkReplayMemory w h ms phi na fss cr im ac rw te li ll gl fu sz nrm
      wm bo tp := r in
  mkReplayMemory w h ms phi na fss cr im ac rw te li ll gl fu sz nrm wm v
    tp.

Definition set_top (v : Z) (r : ReplayMemory) : ReplayMemory :=
  let 'mkReplayMemory w h ms phi na fss cr im ac rw te li ll gl fu sz nrm
      wm bo tp := r in
  mkReplayMemory w h ms phi na fss cr im ac rw te li ll gl fu sz nrm wm bo
    v.

(** ** Methods as stateful, fallible computations *)

Definition M (A : Type) : Type := ReplayMemory -> outcome A * ReplayMemory.

#[export] Instance M_ret : MRet M := fun A a self => (Ret a, self).
#[export] Instance M_bind : MBind M := fun A B f m self =>
  match m self with
  | (Ret a, self') => f a self'
  | (Raise e, self') => (Raise e, self')
  end.

Definition get_self : M ReplayMemory := fun self => (Ret self, self).
Definition update (f : ReplayMemory -> ReplayMemory) : M unit :=
  fun self => (Ret tt, f self).
Definition lift {A} (o : outcome A) : M A := fun self => (o, self).
Definition raise {A} (e : exn) : M A := fun self => (Raise e, self).

(** [self.field[idx] = v] *)
Definition assign {A} (field : ReplayMemory -> list A)
    (set : list A -> ReplayMemory -> ReplayMemory) (idx : Z) (v : A) : M unit :=
  self ← get_self;
  a ← lift (setitem (field self) idx v);
  update (set a).

(** [ReplayMemory.__init__] *)
Definition zero_frame (h w : Z) : Frame :=
  replicate (Z.to_nat h) (replicate (Z.to_nat w) 0%Q).

Definition __init__ (width height max_steps phi_length num_actions : Z)
    (wrap_memory : bool) (full_state_size : Z) (clip_reward : bool)
  : outcome ReplayMemory :=
  if (max_steps <? 0) || (height <? 0) || (width <? 0) then Raise ValueError
  else
    zs ← np_zeros max_steps;
    fs ← np_zeros2 max_steps full_state_size;
    mret (mkReplayMemory width height max_steps phi_length num_actions
            full_state_size clip_reward
            (replicate (Z.to_nat max_steps) (zero_frame height width))
            zs (replicate (Z.to_nat max_steps) 0%Q) zs zs zs zs fs
            0 false wrap_memory 0 0).

(** The default value of [add]'s [fullstate] argument, [np.zeros(1021)]. *)
Definition add_default_fullstate : list Z := replicate 1021%nat 0.

(** [ReplayMemory.add]; [fullstate = None] is a call that omits the
    argument.  Each value is converted to the element type of the array
    it is stored in: [uint8] for [actions], [terminal], [loss_life],
    [gain_life] and [full_state], [int32] for [lives], [float32] for
    [rewards].  The frame is taken to have the shape and the element
    type of the rows of [imgs]. *)
Definition add (img : Frame) (action : Z) (reward : Q) (terminal_ : Z)
    (lives_ : Z) (losslife gainlife : Z) (fullstate : option (list Z))
  : M unit :=
  let fullstate := default add_default_fullstate fullstate in
  self ← get_self;
  if negb (wrap_memory self) && (size self =? max_steps self) then
    mret tt
  else
    let idx := if wrap_memory self then top self else size self in
    assign imgs set_imgs idx img;;
    assign actions set_actions idx (to_uint8 action);;
    assign rewards set_rewards idx (to_float32 reward);;
    assign terminal set_terminal idx (to_uint8 terminal_);;
    assign lives set_lives idx (to_int32 lives_);;
    assign loss_life set_loss_life idx (to_uint8 losslife);;
    assign gain_life set_gain_life idx (to_uint8 gainlife);;
    (self ← get_self;
     a ← lift (setrow (full_state self) idx (map to_uint8 fullstate));
     update (set_full_state a));;
    (self ← get_self;
     if wrap_memory self && (size self =? max_steps self) then
       b ← lift (py_mod (bottom self + 1) (max_steps self));
       update (set_bottom b)
     else
       update (set_size (size self + 1)));;
    (self ← get_self;
     if wrap_memory self then
       t ← lift (py_mod (top self + 1) (max_steps self));
       update (set_top t)
     else mret tt).

(** [ReplayMemory.__len__] *)
Definition __len__ (self : ReplayMemory) : Z :=
  Z.max 0 (size self - phi_length self).

(** ** The window accessor *)

(** What [__getitem__] returns: the tuple of six [None]s, or the tuple of
    eight values describing the window. *)
Inductive item :=
| Unavailable
| Window (state : list Frame) (action : Z) (reward : Q) (terminal_ : Z)
         (next_state : list Frame) (lives_ losslife gainlife : Z).

(** [a < b] on rationals, as a test *)
Definition Qltb (a b : Q) : bool := negb (Qle_bool b a).

(** [np.sign] *)
Definition Qsign (q : Q) : Q :=
  match Qcompare q 0 with
  | Lt => (-1)%Q
  | Eq => 0%Q
  | Gt => 1%Q
  end.

(** [np.zeros((height, width, phi_length))], as [phi_length] frames *)
Definition zero_state (self : ReplayMemory) : outcome (list Frame) :=
  if (height self <? 0) || (width self <? 0) || (phi_length self <? 0)
  then Raise ValueError
  else Ret (replicate (Z.to_nat (phi_length self))
              (zero_frame (height self) (width self))).

(** The statements of [__getitem__] that follow the validity checks:
    the window is fetched with the indexing mode the checks selected.
    A stacked state is kept as the list of its [phi_length] frames,
    oldest first; [zeros] is the zero-filled successor state. *)
Definition fetch_window (mode : take_mode) (key : Z) (zeros : list Frame)
    (self : ReplayMemory) : outcome item :=
  let indices := arange key (key + phi_length self) in
  let indices_next := arange (1 + key) (1 + key + phi_length self) in
  let end_index := key + phi_length self - 1 in
  state ← take mode (imgs self) indices;
  action ← take1 mode (actions self) end_index;
  reward ← take1 mode (rewards self) end_index;
  let reward := if clip_reward self then Qsign reward else reward in
  terminal_ ← take1 mode (terminal self) end_index;
  lives_ ← take1 mode (lives self) end_index;
  losslife ← take1 mode (loss_life self) end_index;
  gainlife ← take1 mode (gain_life self) end_index;
  next_state ←
    (if terminal_ =? 0 then take mode (imgs self) indices_next
     else mret zeros);
  mret (Window state action reward terminal_ next_state
          lives_ losslife gainlife).

(** [ReplayMemory.__getitem__] *)
Definition __getitem__ (key : Z) (self : ReplayMemory) : outcome item :=
  let indices := arange key (key + phi_length self) in
  let end_index := key + phi_length self - 1 in
  zeros ← zero_state self;
  checked ←
    (if wrap_memory self then
       flags ← take mode_wrap (terminal self) (removelast indices);
       mret (if np_any flags then None else Some mode_wrap)
     else if size self <=? end_index then mret None
     else
       flags ← take mode_raise (terminal self) (removelast indices);
       mret (if np_any flags then None else Some mode_raise));
  match checked with
  | None => mret Unavailable
  | Some mode => fetch_window mode key zeros self
  end.

Definition get_item (key : Z) (self : ReplayMemory) : outcome item :=
  __getitem__ key self.

(** ** Batch samplers *)

(** [rng.randint(low, high)]: the generator is an unbounded sequence of
    raw integers [draws], read at position [pos]; a raw integer is
    reduced into the half-open range, so every value of the range can be
    returned and no other. *)
Definition randint (draws : nat -> Z) (pos : nat) (low high : Z) : outcome Z :=
  if high <=? low then Raise ValueError
  else Ret (low + draws pos mod (high - low)).

(** The arrays a sampler fills in and returns. *)
Record batch := mkBatch {
  b_states : list (list Frame);
  b_actions : list (list Z);
  b_rewards : list Q;
  b_terminals : list Z;
  b_next_states : list (list Frame)
}.

(** Allocation of the response arrays; [with_next] is false for
    [sample2], which allocates no successor states. *)
Definition alloc_batch (self : ReplayMemory) (batch_size : Z)
    (onevsall with_next : bool) : outcome batch :=
  zeros ← zero_state self;
  if batch_size <? 0 then Raise ValueError
  else
    row ← np_zeros (if onevsall then 2 else num_actions self);
    let n := Z.to_nat batch_size in
    mret (mkBatch (replicate n zeros) (replicate n row)
            (replicate n 0%Q) (replicate n 0)
            (if with_next then replicate n zeros else [])).

(** [states[count] /= 255.0] *)
Definition scale_state (s : list Frame) : list Frame :=
  map (map (map (fun p => p / 255)%Q)) s.

(** The statements shared by [sample2] and [sample] that copy an
    accepted window into row [count] of the response. *)
Definition store_window (self : ReplayMemory) (normalize onevsall : bool)
    (n_class : option Z) (with_next : bool) (count : Z)
    (s0 : list Frame) (a : Z) (r : Q) (t : Z) (s1 : list Frame) (b : batch)
  : outcome batch :=
  let scaled := normalize && negb (imgs_normalized self) in
  states ← setitem (b_states b) count (if scaled then scale_state s0 else s0);
  next_states ←
    (if with_next
     then setitem (b_next_states b) count (if scaled then scale_state s1 else s1)
     else mret (b_next_states b));
  row ← getitem (b_actions b) count;
  row ← (if onevsall then
           if bool_decide (Some a = n_class) then setitem row 0 1
           else setitem row 1 1
         else setitem row a 1);
  acts ← setitem (b_actions b) count row;
  rews ← setitem (b_rewards b) count r;
  terms ← setitem (b_terminals b) count t;
  mret (mkBatch states acts rews terms next_states).

(** Names assigned anywhere in the body of [sample2] (its locals). *)
Definition sample2_locals : list string :=
  ["self"; "batch_size"; "normalize"; "k_bad_states"; "onevsall"; "n_class";
   "states"; "actions"; "rewards"; "terminals"; "high"; "count"; "index";
   "st_idx"; "en_idx"; "s0"; "a"; "r"; "t"; "s1"; "l"; "ll"; "gl"]%string.

(** The look-ahead filter of [sample2]. *)
Definition bad_state_ahead (self : ReplayMemory) (index k_bad_states : Z)
  : bool :=
  let st_idx := index + (phi_length self - 1) in
  let en_idx := index + (phi_length self - 1) + k_bad_states in
  existsb (fun r => Qltb r 0) (py_slice (rewards self) st_idx en_idx)
  || existsb (fun f => f =? 1) (py_slice (loss_life self) st_idx en_idx).

(** The [while count < batch_size] loop of [sample2].  [fuel] bounds the
    number of iterations evaluated; [None] means the loop is still
    running when the fuel is spent. *)
Fixpoint sample2_loop (fuel : nat) (self : ReplayMemory) (batch_size : Z)
    (normalize : bool) (k_bad_states : Z) (onevsall : bool)
    (n_class : option Z) (high : Z) (draws : nat -> Z) (pos : nat)
    (count : Z) (b : batch) : option (outcome batch) :=
  if count <? batch_size then
    match fuel with
    | O => None
    | S fuel' =>
        match randint draws pos 0 high with
        | Raise e => Some (Raise e)
        | Ret index =>
            if negb (k_bad_states =? 0)
               && bad_state_ahead self index k_bad_states
            then (* continue *)
              sample2_loop fuel' self batch_size normalize k_bad_states
                onevsall n_class high draws (S pos) count b
            else
              match __getitem__ index self with
              | Raise e => Some (Raise e)
              | Ret Unavailable =>
                  (* six values unpacked into eight targets *)
                  Some (Raise ValueError)
              | Ret (Window s0 a r t s1 l ll gl) =>
                  (* if s is None or s1 is None: continue *)
                  match load_name sample2_locals module_globals "s" with
                  | Raise e => Some (Raise e)
                  | Ret _ =>
                      match store_window self normalize onevsall n_class
                              false count s0 a r t s1 b with
                      | Raise e => Some (Raise e)
                      | Ret b' =>
                          sample2_loop fuel' self batch_size normalize
                            k_bad_states onevsall n_class high draws (S pos)
                            (count + 1) b'
                      end
                  end
              end
        end
    end
  else Some (Ret b).

(** [ReplayMemory.sample2] *)
Definition sample2 (fuel : nat) (draws : nat -> Z) (batch_size : Z)
    (normalize : bool) (k_bad_states : Z) (onevsall : bool)
    (n_class : option Z) (self : ReplayMemory) : option (outcome batch) :=
  if wrap_memory self then Some (Raise AssertionError)
  else
    match alloc_batch self batch_size onevsall false with
    | Raise e => Some (Raise e)
    | Ret b =>
        let high := (size self + 1) - phi_length self in
        if high <=? 0 then Some (Raise AssertionError)
        else sample2_loop fuel self batch_size normalize k_bad_states
               onevsall n_class high draws 0%nat 0 b
    end.

(** The [while count < batch_size] loop of [sample]. *)
Fixpoint sample_loop (fuel : nat) (self : ReplayMemory) (batch_size : Z)
    (normalize onevsall : bool) (n_class : option Z) (draws : nat -> Z)
    (pos : nat) (count : Z) (b : batch) : option (outcome batch) :=
  if count <? batch_size then
    match fuel with
    | O => None
    | S fuel' =>
        match randint draws pos (bottom self)
                (bottom self + size self - phi_length self) with
        | Raise e => Some (Raise e)
        | Ret index =>
            let indices := arange index (index + phi_length self + 1) in
            match take mode_wrap (terminal self) (removelast indices) with
            | Raise e => Some (Raise e)
            | Ret flags =>
                if np_any flags then (* continue *)
                  sample_loop fuel' self batch_size normalize onevsall
                    n_class draws (S pos) count b
                else
                  match __getitem__ index self with
                  | Raise e => Some (Raise e)
                  | Ret Unavailable =>
                      (* six values unpacked into eight targets *)
                      Some (Raise ValueError)
                  | Ret (Window s0 a r t s1 l ll gl) =>
                      (* s0 and s1 are arrays here: the guard
                         [s0 is None or s1 is None] is false *)
                      match store_window self normalize onevsall n_class
                              true count s0 a r t s1 b with
                      | Raise e => Some (Raise e)
                      | Ret b' =>
                          sample_loop fuel' self batch_size normalize
                            onevsall n_class draws (S pos) (count + 1) b'
                      end
                  end
            end
        end
    end
  else Some (Ret b).

(** [ReplayMemory.sample] *)
Definition sample (fuel : nat) (draws : nat -> Z) (batch_size : Z)
    (normalize onevsall : bool) (n_class : option Z) (self : ReplayMemory)
  : option (outcome batch) :=
  if negb (wrap_memory self) then Some (Raise AssertionError)
  else
    match alloc_batch self batch_size onevsall true with
    | Raise e => Some (Raise e)
    | Ret b =>
        sample_loop fuel self batch_size normalize onevsall n_class draws
          0%nat 0 b
    end.

(** ** The reward shaper *)

(** [for x in xs: body(x)] *)
Fixpoint for_each {A} (xs : list A) (body : A -> M unit) : M unit :=
  match xs with
  | [] => mret tt
  | x :: rest => body x;; for_each rest body
  end.

(** [np.clip(r, -1., 1.)] on one entry *)
Definition Qclip1 (r : Q) : Q :=
  if Qltb r (-1) then (-1)%Q else if Qltb 1 r then 1%Q else r.

Definition Qnonzero (r : Q) : bool := negb (Qeq_bool r 0).

Definition Qsum (a : list Q) : Q := fold_right Qplus 0%Q a.

(** [np.mean] *)
Definition Qmean (a : list Q) : Q :=
  (Qsum a / inject_Z (Z.of_nat (length a)))%Q.

(** The square of [np.std]: the population variance. *)
Definition Qvariance (a : list Q) : Q :=
  let m := Qmean a in Qmean (map (fun x => (x - m) * (x - m))%Q a).

(** [self.rewards[np.abs(self.rewards - np.mean(rewards)) > 2*np.std(rewards)]]
    where [rewards] are the nonzero entries.  The test is evaluated on
    squares, which keeps it rational; over an empty selection the mean
    is not a number and no entry passes the test. *)
Definition outliers_of (a : list Q) : list Q :=
  let nonzero := filter (fun r => Qnonzero r = true) a in
  match nonzero with
  | [] => []
  | _ =>
      let m := Qmean nonzero in
      let v := Qvariance nonzero in
      filter (fun r => Qltb (4 * v) ((r - m) * (r - m)) = true)%Q a
  end.

(** The loop over the outliers. *)
Definition suppress_outliers (max_reward : Q) (a : list Q) : list Q :=
  fold_left
    (fun cur outlier =>
       if Qnonzero outlier then
         map (fun r =>
                if Qeq_bool r outlier
                then if Qltb 0 outlier then max_reward else (- max_reward)%Q
                else r) cur
       else cur)
    (outliers_of a) a.

(** [a + gamma*b] for two [float32] scalars [a] and [b] and a Python
    float [gamma], as stored in a [float32] array: a [float32] scalar
    combined with a Python float gives a double, so the product and the
    sum are rounded to double precision, and the assignment rounds the
    sum to [float32]. *)
Definition discounted (gamma a b : Q) : Q :=
  to_float32 (to_float64 (a + to_float64 (to_float64 gamma * b)))%Q.

(** [self.rewards[i] = self.rewards[i] + gamma*self.rewards[i+1]] *)
Definition discount_step (gamma : Q) (i : Z) : M unit :=
  self ← get_self;
  ri ← lift (getitem (rewards self) i);
  rnext ← lift (getitem (rewards self) (i + 1));
  assign rewards set_rewards i (discounted gamma ri rnext).

(** The transform of a [MinMaxScaler] with its default range [0, 1]; a
    constant column is mapped to zero. *)
Definition Qminimum (a : list Q) : Q :=
  fold_right (fun x m => if Qltb x m then x else m) (hd 0%Q a) a.
Definition Qmaximum (a : list Q) : Q :=
  fold_right (fun x m => if Qltb m x then x else m) (hd 0%Q a) a.
Definition minmax_transform (a : list Q) : list Q :=
  let lo := Qminimum a in
  let hi := Qmaximum a in
  let scale := if Qeq_bool hi lo then 1%Q else (hi - lo)%Q in
  map (fun x => (x - lo) / scale)%Q a.

(** [np.linalg.norm(a, np.inf)] and [np.min(np.abs(a))]: both reduce
    with no identity and refuse an empty array. *)
Definition np_norm_inf (a : list Q) : outcome Q :=
  match a with
  | [] => Raise ValueError
  | _ => Ret (Qmaximum (map Qabs a))
  end.
Definition np_min_abs (a : list Q) : outcome Q :=
  match a with
  | [] => Raise ValueError
  | _ => Ret (Qminimum (map Qabs a))
  end.

(** Names assigned in the body of [propagate_rewards]. *)
Definition propagate_rewards_locals : list string :=
  ["self"; "gamma"; "clip"; "normalize"; "minmax_scale"; "exclude_outlier";
   "max_reward"; "rewards"; "outliers"; "outlier"; "i"; "MinMaxScaler"]%string.

(** The two debug lines that close [propagate_rewards]: their
    arguments are evaluated whatever the logging level. *)
Definition closing_debug : M unit :=
  self ← get_self;
  lift (np_norm_inf (rewards self));;
  lift (np_min_abs (filter (fun r => Qnonzero r = true) (rewards self)));;
  mret tt.

(** [ReplayMemory.propagate_rewards] *)
Definition propagate_rewards (gamma : Q)
    (clip normalize minmax_scale exclude_outlier : bool) (max_reward : Q)
  : M unit :=
  (if clip then
     update (fun self => set_rewards (map Qclip1 (rewards self)) self)
   else if exclude_outlier && Qnonzero max_reward then
     update (fun self =>
               set_rewards (suppress_outliers max_reward (rewards self)) self)
   else mret tt);;
  (if normalize && Qnonzero max_reward then
     update (fun self =>
               set_rewards (map (fun r => r / max_reward)%Q (rewards self)) self)
   else mret tt);;
  (self ← get_self;
   for_each (range_down (size self - 2) 0) (discount_step gamma));;
  (if minmax_scale then
     (* from sklearn.preprocessing import MinMaxScaler
        rewards = self.rewards.reshape(-1, 1)
        scaler.fit(rewards) *)
     lift (load_name propagate_rewards_locals module_globals "scaler");;
     (* rewards = scaler.transform(rewards)
        self.rewards = rewards.reshape(-1) *)
     update (fun self => set_rewards (minmax_transform (rewards self)) self)
   else mret tt);;
  closing_debug.

(** ** Resizing *)

Fixpoint resolve_indices (n : nat) (obj : list Z) : outcome (list nat) :=
  match obj with
  | [] => Ret []
  | i :: rest =>
      match np_index n i with
      | Some j => js ← resolve_indices n rest; mret (j :: js)
      | None => Raise IndexError
      end
  end.

Fixpoint drop_positions {A} (js : list nat) (pos : nat) (a : list A) : list A :=
  match a with
  | [] => []
  | x :: rest =>
      if bool_decide (pos ∈ js) then drop_positions js (S pos) rest
      else x :: drop_positions js (S pos) rest
  end.

(** [np.delete(a, obj, axis=0)] for a sequence of indices *)
Definition np_delete {A} (a : list A) (obj : list Z) : outcome (list A) :=
  js ← resolve_indices (length a) obj;
  mret (drop_positions js 0 a).

(** [ReplayMemory.resize] *)
Definition resize : M unit :=
  self ← get_self;
  let doomed := arange (size self) (max_steps self) in
  tmp_imgs ← lift (np_delete (imgs self) doomed);
  tmp_actions ← lift (np_delete (actions self) doomed);
  tmp_rewards ← lift (np_delete (rewards self) doomed);
  tmp_terminal ← lift (np_delete (terminal self) doomed);
  tmp_lives ← lift (np_delete (lives self) doomed);
  tmp_losslife ← lift (np_delete (loss_life self) doomed);
  tmp_gainlife ← lift (np_delete (gain_life self) doomed);
  tmp_fullstate ← lift (np_delete (full_state self) doomed);
  update (set_imgs tmp_imgs);;
  update (set_actions tmp_actions);;
  update (set_rewards tmp_rewards);;
  update (set_terminal tmp_terminal);;
  update (set_lives tmp_lives);;
  update (set_loss_life tmp_losslife);;
  update (set_gain_life tmp_gainlife);;
  update (set_full_state tmp_fullstate);;
  (self ← get_self; update (set_max_steps (size self))).

(** ** Persistence *)

(** The values [save] puts in the pickled dictionary. *)
Inductive pyval :=
| PInt (z : Z)
| PBool (b : bool)
| PIntArray (a : list Z)
| PFloatArray (a : list Q)
| PIntArray2 (a : list (list Z)).

(** A file is a pickled dictionary or a compressed image archive. *)
Inductive file :=
| PickleFile (data : gmap string pyval)
| ImageArchive (images : list Frame).

(** The record is typed and the dictionary is not: an entry of another
    kind than the field it is assigned to cannot be stored in the record
    and is reported as [TypeError]. *)
Definition as_int (v : pyval) : outcome Z :=
  match v with PInt z => Ret z | _ => Raise TypeError end.
Definition as_bool (v : pyval) : outcome bool :=
  match v with PBool b => Ret b | _ => Raise TypeError end.
Definition as_int_array (v : pyval) : outcome (list Z) :=
  match v with PIntArray a => Ret a | _ => Raise TypeError end.
Definition as_float_array (v : pyval) : outcome (list Q) :=
  match v with PFloatArray a => Ret a | _ => Raise TypeError end.
Definition as_int_array2 (v : pyval) : outcome (list (list Z)) :=
  match v with PIntArray2 a => Ret a | _ => Raise TypeError end.

(** [data[key]] *)
Definition subscript (data : gmap string pyval) (key : string)
  : outcome pyval :=
  match data !! key with
  | Some v => Ret v
  | None => Raise KeyError
  end.

(** [data.get(key, dflt)] *)
Definition dict_get (data : gmap string pyval) (key : string) (dflt : pyval)
  : pyval :=
  default dflt (data !! key).

(** [pickle.dump(data, open(path, 'wb'))] *)
Definition pickle_dump (data : gmap string pyval) (path : string)
    (fs : gmap string file) : gmap string file :=
  <[path := PickleFile data]> fs.

(** [pickle.load(open(path, 'rb'))] *)
Definition pickle_load (path : string) (fs : gmap string file)
  : outcome (gmap string pyval) :=
  match fs !! path with
  | None => Raise FileNotFoundError
  | Some (PickleFile data) => Ret data
  | Some (ImageArchive _) => Raise UnpicklingError
  end.

(** Modelled from the spec: [common.util.save_compressed_images], which
    is not part of the sources at hand.  The image array is written,
    without loss, to a compressed archive of its own whose name is the
    given name followed by the compression extension. *)
Definition save_compressed_images (path : string) (images : list Frame)
    (fs : gmap string file) : gmap string file :=
  <[(path +:+ ".gz")%string := ImageArchive images]> fs.

(** Modelled from the spec: [common.util.get_compressed_images], which
    is not part of the sources at hand.  The archive at the given name is
    read back and decompressed to the pixel values that were saved. *)
Definition get_compressed_images (path : string) (fs : gmap string file)
  : outcome (list Frame) :=
  match fs !! path with
  | None => Raise FileNotFoundError
  | Some (ImageArchive images) => Ret images
  | Some (PickleFile _) => Raise UnpicklingError
  end.

(** The dictionary built by [save]. *)
Definition save_data (self : ReplayMemory) : gmap string pyval :=
  <["width" := PInt (width self)]> (
  <["height" := PInt (height self)]> (
  <["max_steps" := PInt (max_steps self)]> (
  <["phi_length" := PInt (phi_length self)]> (
  <["num_actions" := PInt (num_actions self)]> (
  <["actions" := PIntArray (actions self)]> (
  <["rewards" := PFloatArray (rewards self)]> (
  <["terminal" := PIntArray (terminal self)]> (
  <["lives" := PIntArray (lives self)]> (
  <["loss_life" := PIntArray (loss_life self)]> (
  <["gain_life" := PIntArray (gain_life self)]> (
  <["full_state_size" := PInt (full_state_size self)]> (
  <["full_state" := PIntArray2 (full_state self)]> (
  <["size" := PInt (size self)]> (
  <["wrap_memory" := PBool (wrap_memory self)]> (
  <["top" := PInt (top self)]> (
  <["bottom" := PInt (bottom self)]> (
  <["imgs_normalized" := PBool (imgs_normalized self)]> ∅))))))))))))))))).

(** [ReplayMemory.save]; the result is the file system after the call. *)
Definition save (name folder : option string) (resize_ : bool)
    (fs : gmap string file) : M (gmap string file) :=
  match name, folder with
  | None, _ | _, None => raise AssertionError
  | Some name, Some folder =>
      (if resize_ then resize else mret tt);;
      self ← get_self;
      let data := save_data self in
      let images := imgs self in
      let pkl_file := (name +:+ ".pkl")%string in
      let h5_file := (name +:+ "-images.h5")%string in
      let fs := pickle_dump data (folder +:+ "/" +:+ pkl_file)%string fs in
      mret (save_compressed_images (folder +:+ "/" +:+ h5_file)%string
              images fs)
  end.

(** [self.field = conv(value)] *)
Definition store {A} (set : A -> ReplayMemory -> ReplayMemory)
    (value : outcome A) : M unit :=
  v ← lift value; update (set v).

(** [ReplayMemory.load] *)
Definition load (name folder : option string) (fs : gmap string file)
  : M unit :=
  match name, folder with
  | None, _ | _, None => raise AssertionError
  | Some name, Some folder =>
      let pkl_file := (name +:+ ".pkl")%string in
      let h5_file := (name +:+ "-images.h5")%string in
      data ← lift (pickle_load (folder +:+ "/" +:+ pkl_file)%string fs);
      store set_width (subscript data "width" ≫= as_int);;
      store set_height (subscript data "height" ≫= as_int);;
      store set_max_steps (subscript data "max_steps" ≫= as_int);;
      store set_phi_length (subscript data "phi_length" ≫= as_int);;
      store set_num_actions (subscript data "num_actions" ≫= as_int);;
      store set_actions (subscript data "actions" ≫= as_int_array);;
      store set_rewards (subscript data "rewards" ≫= as_float_array);;
      store set_terminal (subscript data "terminal" ≫= as_int_array);;
      (self ← get_self;
       zs ← lift (np_zeros (max_steps self));
       store set_lives (as_int_array (dict_get data "lives" (PIntArray zs))));;
      (self ← get_self;
       zs ← lift (np_zeros (max_steps self));
       store set_loss_life
         (as_int_array (dict_get data "loss_life" (PIntArray zs))));;
      (self ← get_self;
       zs ← lift (np_zeros (max_steps self));
       store set_gain_life
         (as_int_array (dict_get data "gain_life" (PIntArray zs))));;
      (self ← get_self;
       store set_full_state_size
         (as_int (dict_get data "full_state_size"
                    (PInt (full_state_size self)))));;
      (self ← get_self;
       zs ← lift (np_zeros2 (max_steps self) (full_state_size self));
       store set_full_state
         (as_int_array2 (dict_get data "full_state" (PIntArray2 zs))));;
      store set_size (subscript data "size" ≫= as_int);;
      store set_wrap_memory (subscript data "wrap_memory" ≫= as_bool);;
      store set_top (subscript data "top" ≫= as_int);;
      store set_bottom (subscript data "bottom" ≫= as_int);;
      store set_imgs_normalized (subscript data "imgs_normalized" ≫= as_bool);;
      store set_imgs
        (get_compressed_images (folder +:+ "/" +:+ h5_file +:+ ".gz")%string fs)
  end.

(** ** Calls, runs and well-formed buffers *)

(** The arguments of one call of [add]. *)
Record call := mkCall {
  c_img : Frame;
  c_action : Z;
  c_reward : Q;
  c_terminal : Z;
  c_lives : Z;
  c_losslife : Z;
  c_gainlife : Z;
  c_fullstate : option (list Z)
}.

Definition add_call (c : call) : M unit :=
  add (c_img c) (c_action c) (c_reward c) (c_terminal c) (c_lives c)
    (c_losslife c) (c_gainlife c) (c_fullstate c).

(** The operand of the [full_state] row assignment of a call. *)
Definition fullstate_operand (c : call) : list Z :=
  default add_default_fullstate (c_fullstate c).

(** A sequence of calls, each made on the buffer the previous one left
    (whether it returned or raised). *)
Definition run_adds (cs : list call) (rm : ReplayMemory) : ReplayMemory :=
  fold_left (fun self c => snd (add_call c self)) cs rm.

(** The record of call [c] stored in slot [idx] of the seven
    one-dimensional arrays and of the image array, each value converted
    to the element type of its array. *)
Definition write_columns (idx : nat) (c : call) (rm : ReplayMemory)
  : ReplayMemory :=
  set_gain_life (<[idx := to_uint8 (c_gainlife c)]> (gain_life rm))
    (set_loss_life (<[idx := to_uint8 (c_losslife c)]> (loss_life rm))
       (set_lives (<[idx := to_int32 (c_lives c)]> (lives rm))
          (set_terminal (<[idx := to_uint8 (c_terminal c)]> (terminal rm))
             (set_rewards (<[idx := to_float32 (c_reward c)]> (rewards rm))
                (set_actions (<[idx := to_uint8 (c_action c)]> (actions rm))
                   (set_imgs (<[idx := c_img c]> (imgs rm)) rm)))))).

(** The same, with [row] stored in slot [idx] of [full_state] too. *)
Definition write_slot (idx : nat) (c : call) (row : list Z)
    (rm : ReplayMemory) : ReplayMemory :=
  let rm' := write_columns idx c rm in
  set_full_state (<[idx := map to_uint8 row]> (full_state rm')) rm'.

(** Buffers as the constructor and [add] make them: every array has
    [max_steps] rows, the rows of [full_state] have width
    [full_state_size], [size] is between 0 and [max_steps], and in
    wrapping mode the cursors are in range with [top] sitting [size]
    slots after [bottom]. *)
Record wf (rm : ReplayMemory) : Prop := mk_wf {
  wf_size : 0 <= size rm <= max_steps rm;
  wf_shape : 0 <= height rm /\ 0 <= width rm /\ 0 <= phi_length rm;
  wf_fss : 0 <= full_state_size rm;
  wf_imgs : Z.of_nat (length (imgs rm)) = max_steps rm;
  wf_actions : Z.of_nat (length (actions rm)) = max_steps rm;
  wf_rewards : Z.of_nat (length (rewards rm)) = max_steps rm;
  wf_terminal : Z.of_nat (length (terminal rm)) = max_steps rm;
  wf_lives : Z.of_nat (length (lives rm)) = max_steps rm;
  wf_loss_life : Z.of_nat (length (loss_life rm)) = max_steps rm;
  wf_gain_life : Z.of_nat (length (gain_life rm)) = max_steps rm;
  wf_full_state : Z.of_nat (length (full_state rm)) = max_steps rm;
  wf_rows :
    Forall (fun row => length row = Z.to_nat (full_state_size rm))
      (full_state rm);
  wf_ring :
    wrap_memory rm = true ->
    0 <= bottom rm < max_steps rm /\
    top rm = (bottom rm + size rm) mod max_steps rm
}.

(** The slot [add] writes to. *)
Definition write_index (rm : ReplayMemory) : Z :=
  if wrap_memory rm then top rm else size rm.

(** The cursor updates that end a successful [add]. *)
Definition advance (rm : ReplayMemory) : ReplayMemory :=
  let rm1 :=
    if wrap_memory rm && (size rm =? max_steps rm)
    then set_bottom ((bottom rm + 1) mod max_steps rm) rm
    else set_size (size rm + 1) rm in
  if wrap_memory rm1
  then set_top ((top rm1 + 1) mod max_steps rm1) rm1
  else rm1.

(** The terminal flag at logical offset [j] is set: in wrapping mode the
    offset is reduced modulo the capacity. *)
Definition flag_set (rm : ReplayMemory) (j : Z) : Prop :=
  exists t,
    terminal rm !! Z.to_nat (if wrap_memory rm
                             then j mod Z.of_nat (length (terminal rm))
                             else j) = Some t
    /\ t <> 0.

(** A value below the overflow threshold of [float32], past which the
    code stores an infinity. *)
Definition float32_finite (q : Q) : Prop := (Qabs q < inject_Z (2 ^ 128))%Q.

Arguments float32_finite : simpl never.

(** The [rewards] array holds finite values. *)
Definition finite_rewards (rm : ReplayMemory) : Prop :=
  Forall float32_finite (rewards rm).

(** An integer NumPy accepts for an element of an integer array: one
    that fits a C [long]. *)
Definition int64 (v : Z) : Prop := - 2 ^ 63 <= v < 2 ^ 63.

(** A pixel the image array holds as it is given: an integer from 0 to
    255 while the array is [uint8], a finite [float32] value once the
    images are normalised. *)
Definition typed_pixel (normalized : bool) (p : Q) : Prop :=
  if normalized then (to_float32 p == p)%Q /\ float32_finite p
  else exists n, 0 <= n < 256 /\ p = inject_Z n.

(** A frame of the shape and element type of the rows of [imgs]. *)
Definition typed_frame (rm : ReplayMemory) (img : Frame) : Prop :=
  length img = Z.to_nat (height rm)
  /\ Forall (fun line =>
               length line = Z.to_nat (width rm)
               /\ Forall (typed_pixel (imgs_normalized rm)) line) img.

(** A call of [add] whose values are machine numbers: a frame of the
    shape and element type of the image array, integers that fit a C
    [long] and a reward that [float32] holds as a finite value. *)
Definition machine_call (rm : ReplayMemory) (c : call) : Prop :=
  typed_frame rm (c_img c)
  /\ int64 (c_action c) /\ int64 (c_terminal c) /\ int64 (c_lives c)
  /\ int64 (c_losslife c) /\ int64 (c_gainlife c)
  /\ Forall int64 (fullstate_operand c)
  /\ float32_finite (to_float32 (c_reward c)).

(** The operand of call [c] can be assigned to a row of [full_state]. *)
Definition fits (rm : ReplayMemory) (c : call) : Prop :=
  is_raise (broadcast_row (Z.to_nat (full_state_size rm))
              (fullstate_operand c)) = false.

(** Buffer [rm'] is [rm] with the record of call [c] in slot [idx] of
    every array, each value converted to the element type of its array,
    [row] being the operand of the call as broadcast. *)
Definition slot_written (idx : nat) (c : call) (row : list Z)
    (rm rm' : ReplayMemory) : Prop :=
  imgs rm' = <[idx := c_img c]> (imgs rm)
  /\ actions rm' = <[idx := to_uint8 (c_action c)]> (actions rm)
  /\ rewards rm' = <[idx := to_float32 (c_reward c)]> (rewards rm)
  /\ terminal rm' = <[idx := to_uint8 (c_terminal c)]> (terminal rm)
  /\ lives rm' = <[idx := to_int32 (c_lives c)]> (lives rm)
  /\ loss_life rm' = <[idx := to_uint8 (c_losslife c)]> (loss_life rm)
  /\ gain_life rm' = <[idx := to_uint8 (c_gainlife c)]> (gain_life rm)
  /\ full_state rm' = <[idx := map to_uint8 row]> (full_state rm).

(** ** Example buffers *)

(** [ReplayMemory(max_steps=2, phi_length=2, num_actions=2,
    full_state_size=3)], bounded, and its wrapping twin. *)
Definition demo_bounded : ReplayMemory :=
  mkReplayMemory 1 1 2 2 2 3 true
    [[[0%Q]]; [[0%Q]]] [0; 0] [0%Q; 0%Q] [0; 0] [0; 0] [0; 0] [0; 0]
    [[0; 0; 0]; [0; 0; 0]] 0 false false 0 0.

Definition demo_wrapping : ReplayMemory :=
  mkReplayMemory 1 1 2 2 2 3 true
    [[[0%Q]]; [[0%Q]]] [0; 0] [0%Q; 0%Q] [0; 0] [0; 0] [0; 0] [0; 0]
    [[0; 0; 0]; [0; 0; 0]] 0 false true 0 0.

Definition demo_call (t : Z) : call :=
  mkCall [[1%Q]] 1 1%Q t 3 0 0 (Some [7; 8; 9]).

(** A full bounded buffer of three steps whose second step ends an
    episode. *)
Definition demo_episode : ReplayMemory :=
  mkReplayMemory 1 1 3 2 2 3 true
    [[[1%Q]]; [[2%Q]]; [[3%Q]]] [0; 1; 0] [0%Q; 5%Q; 0%Q] [0; 1; 0]
    [3; 3; 3] [0; 0; 0] [0; 0; 0]
    [[0; 0; 0]; [0; 0; 0]; [0; 0; 0]] 3 false false 0 0.

(** A full wrapping buffer of four steps whose third step ends an
    episode. *)
Definition demo_ring : ReplayMemory :=
  mkReplayMemory 1 1 4 2 2 3 true
    [[[1%Q]]; [[2%Q]]; [[3%Q]]; [[4%Q]]] [0; 1; 0; 1] [0%Q; 5%Q; 0%Q; 0%Q]
    [0; 0; 1; 0] [3; 3; 3; 3] [0; 0; 0; 0] [0; 0; 0; 0]
    [[0; 0; 0]; [0; 0; 0]; [0; 0; 0]; [0; 0; 0]] 4 false true 0 0.

(** A generator whose first raw draw is 1 and whose later draws are 0. *)
Definition draws_1_then_0 (n : nat) : Z :=
  match n with
  | O => 1
  | _ => 0
  end.

(** The index the first iteration of [sample2] draws. *)
Definition first_index (draws : nat -> Z) (rm : ReplayMemory) : Z :=
  draws 0%nat mod (size rm + 1 - phi_length rm).

(** The buffer [resize] leaves: the first [size] rows of every array,
    [max_steps] set to [size], everything else as it was. *)
Definition resized (rm : ReplayMemory) : ReplayMemory :=
  let n := Z.to_nat (size rm) in
  mkReplayMemory (width rm) (height rm) (size rm) (phi_length rm)
    (num_actions rm) (full_state_size rm) (clip_reward rm)
    (firstn n (imgs rm)) (firstn n (actions rm)) (firstn n (rewards rm))
    (firstn n (terminal rm)) (firstn n (lives rm)) (firstn n (loss_life rm))
    (firstn n (gain_life rm)) (firstn n (full_state rm))
    (size rm) (imgs_normalized rm) (wrap_memory rm) (bottom rm) (top rm).

(** A bounded buffer of four steps holding the rewards [0, 0, 1, 0]. *)
Definition demo_rewards : ReplayMemory :=
  mkReplayMemory 1 1 4 2 2 3 true
    [[[1%Q]]; [[2%Q]]; [[3%Q]]; [[4%Q]]] [0; 1; 0; 1] [0%Q; 0%Q; 1%Q; 0%Q]
    [0; 0; 0; 0] [3; 3; 3; 3] [0; 0; 0; 0] [0; 0; 0; 0]
    [[0; 0; 0]; [0; 0; 0]; [0; 0; 0]; [0; 0; 0]] 4 false false 0 0.

(** The reward array after the optional passes that precede the
    discount loop. *)
Definition shaped (clip normalize exclude_outlier : bool) (max_reward : Q)
    (r : list Q) : list Q :=
  let r1 :=
    if clip then map Qclip1 r
    else if exclude_outlier && Qnonzero max_reward
         then suppress_outliers max_reward r
         else r in
  if normalize && Qnonzero max_reward
  then map (fun x => x / max_reward)%Q r1
  else r1.

(** The file system [save] leaves when it is not asked to resize. *)
Definition saved (name folder : string) (rm : ReplayMemory)
    (fs : gmap string file) : gmap string file :=
  save_compressed_images (folder +:+ "/" +:+ name +:+ "-images.h5")%string
    (imgs rm)
    (pickle_dump (save_data rm) (folder +:+ "/" +:+ name +:+ ".pkl")%string fs).


(** The indexing mode [__getitem__] selects for a buffer. *)
Definition mode_of (rm : ReplayMemory) : take_mode :=
  if wrap_memory rm then mode_wrap else mode_raise.

(** The physical slot of logical index [i]. *)
Definition slot_of (rm : ReplayMemory) (i : Z) : nat :=
  Z.to_nat (if wrap_memory rm then i mod max_steps rm else i).


(** A full bounded buffer of three steps, none of them terminal. *)
Definition demo_full : ReplayMemory :=
  mkReplayMemory 1 1 3 2 2 3 true
    [[[1%Q]]; [[2%Q]]; [[3%Q]]] [0; 1; 0] [0%Q; 5%Q; 0%Q] [0; 0; 0]
    [3; 3; 3] [0; 0; 0] [0; 0; 0]
    [[0; 0; 0]; [0; 0; 0]; [0; 0; 0]] 3 false false 0 0.

(** A row of width [w] with a single one. *)
Definition one_hot (w : nat) (row : list Z) : Prop :=
  exists j, (j < w)%nat /\ row = <[j := 1]> (replicate w 0).

(** The width of the rows of the [actions] response. *)
Definition action_width (self : ReplayMemory) (onevsall : bool) : nat :=
  Z.to_nat (if onevsall then 2 else num_actions self).

(** The response after [count] windows were stored: every array has [n]
    rows, the first [count] action rows are one-hot and the others are
    still zero, and no terminal flag was stored. *)
Definition batch_inv (w n count : nat) (with_next : bool) (b : batch) : Prop :=
  length (b_states b) = n /\ length (b_actions b) = n
  /\ length (b_rewards b) = n /\ length (b_terminals b) = n
  /\ (with_next = true -> length (b_next_states b) = n)
  /\ (forall i row,
        b_actions b !! i = Some row ->
        ((i < count)%nat -> one_hot w row)
        /\ ((count <= i)%nat -> row = replicate w 0))
  /\ Forall (fun t => t = 0) (b_terminals b).

(** A bounded buffer of three steps in which every step loses a life. *)
Definition demo_losing : ReplayMemory :=
  mkReplayMemory 1 1 3 2 2 3 true
    [[[1%Q]]; [[2%Q]]; [[3%Q]]] [0; 1; 0] [0%Q; 5%Q; 0%Q] [0; 0; 0]
    [3; 2; 1] [1; 1; 1] [0; 0; 0]
    [[0; 0; 0]; [0; 0; 0]; [0; 0; 0]] 3 false false 0 0.

(** The dictionary of an archive written before the fields [lives],
    [loss_life], [gain_life], [full_state_size] and [full_state] were
    introduced. *)
Definition legacy_data (self : ReplayMemory) : gmap string pyval :=
  delete "lives" (delete "loss_life" (delete "gain_life"
    (delete "full_state_size" (delete "full_state" (save_data self))))).

(** The names of the two artifacts of a buffer saved as [name] in
    [folder]. *)
Definition pkl_path (name folder : string) : string :=
  (folder +:+ "/" +:+ name +:+ ".pkl")%string.
Definition archive_path (name folder : string) : string :=
  (folder +:+ "/" +:+ (name +:+ "-images.h5") +:+ ".gz")%string.

(** What [load] makes of a legacy archive of [rm] whose images are [im],
    loaded into [fresh]. *)
Definition legacy_loaded (rm fresh : ReplayMemory) (im : list Frame)
  : ReplayMemory :=
  let zs := replicate (Z.to_nat (max_steps rm)) 0 in
  mkReplayMemory (width rm) (height rm) (max_steps rm) (phi_length rm)
    (num_actions rm) (full_state_size fresh) (clip_reward fresh) im
    (actions rm) (rewards rm) (terminal rm) zs zs zs
    (replicate (Z.to_nat (max_steps rm))
       (replicate (Z.to_nat (full_state_size fresh)) 0))
    (size rm) (imgs_normalized rm) (wrap_memory rm) (bottom rm) (top rm).

(** A file system holding a legacy archive of [demo_episode]. *)
Definition demo_legacy_fs : gmap string file :=
  <[pkl_path "demo" "out" := PickleFile (legacy_data demo_episode)]>
    (<[archive_path "demo" "out" := ImageArchive (imgs demo_episode)]> ∅).

(** Every reward is zero. *)
Definition all_zero (r : list Q) : Prop := Forall (fun x => x == 0)%Q r.





(** * Properties *)

(** ** The monad *)

Lemma bind_ret {A B} (m : M A) (f : A -> M B) self a self' :
  m self = (Ret a, self') -> (m ≫= f) self = f a self'.
Proof. intros H. unfold mbind, M_bind. by rewrite H. Qed.

Lemma bind_raise {A B} (m : M A) (f : A -> M B) self e self' :
  m self = (Raise e, self') -> (m ≫= f) self = (Raise e, self').
Proof. intros H. unfold mbind, M_bind. by rewrite H. Qed.

Lemma bind_get_self {B} (f : ReplayMemory -> M B) self :
  (get_self ≫= f) self = f self self.
Proof. reflexivity. Qed.

Lemma bind_lift_ret {A B} (o : outcome A) (f : A -> M B) self a :
  o = Ret a -> (lift o ≫= f) self = f a self.
Proof. intros ->. reflexivity. Qed.

Lemma bind_lift_raise {A B} (o : outcome A) (f : A -> M B) self e :
  o = Raise e -> (lift o ≫= f) self = (Raise e, self).
Proof. intros ->. reflexivity. Qed.

Lemma bind_update {B} g (f : unit -> M B) self :
  (update g ≫= f) self = f tt (g self).
Proof. reflexivity. Qed.

(** ** Indexing *)

Lemma np_index_in_range n i :
  0 <= i < Z.of_nat n -> np_index n i = Some (Z.to_nat i).
Proof.
  intros H. unfold np_index.
  destruct (Z.leb_spec 0 i); [|lia].
  destruct (Z.ltb_spec i (Z.of_nat n)); [|lia]. reflexivity.
Qed.

Lemma np_index_past_end n i : Z.of_nat n <= i -> np_index n i = None.
Proof.
  intros H. unfold np_index.
  destruct (Z.ltb_spec i (Z.of_nat n)); [lia|].
  destruct (Z.ltb_spec i 0); [lia|].
  by rewrite !andb_false_r.
Qed.

Lemma setitem_in_range {A} (a : list A) i v :
  0 <= i < Z.of_nat (length a) -> setitem a i v = Ret (<[Z.to_nat i := v]> a).
Proof. intros H. unfold setitem. by rewrite np_index_in_range. Qed.

Lemma getitem_in_range {A} (a : list A) i :
  0 <= i < Z.of_nat (length a) ->
  exists x, a !! Z.to_nat i = Some x /\ getitem a i = Ret x.
Proof.
  intros H. unfold getitem. rewrite np_index_in_range by done.
  destruct (lookup_lt_is_Some_2 a (Z.to_nat i)) as [x Hx]; [lia|].
  exists x. by rewrite Hx.
Qed.

Lemma getitem_past_end {A} (a : list A) i :
  Z.of_nat (length a) <= i -> getitem a i = Raise IndexError.
Proof. intros H. unfold getitem. by rewrite np_index_past_end. Qed.

Lemma assign_in_range {A} (field : ReplayMemory -> list A) set idx v self :
  0 <= idx < Z.of_nat (length (field self)) ->
  assign field set idx v self
  = (Ret tt, set (<[Z.to_nat idx := v]> (field self)) self).
Proof.
  intros H. unfold assign. rewrite bind_get_self.
  by rewrite (bind_lift_ret _ _ _ _ (setitem_in_range _ _ _ H)).
Qed.


Lemma broadcast_row_length w v row :
  broadcast_row w v = Ret row -> length row = w.
Proof.
  unfold broadcast_row. case_bool_decide as Hl.
  - intros [= <-]. done.
  - destruct v as [|x [|y v]]; try discriminate.
    intros [= <-]. apply length_replicate.
Qed.

Lemma broadcast_row_cases w v :
  (exists row, broadcast_row w v = Ret row)
  \/ broadcast_row w v = Raise ValueError.
Proof.
  unfold broadcast_row. case_bool_decide; [eauto|].
  destruct v as [|x [|y v]]; eauto.
Qed.

Lemma broadcast_row_map f w v :
  broadcast_row w (map f v)
  = match broadcast_row w v with
    | Ret row => Ret (map f row)
    | Raise e => Raise e
    end.
Proof.
  unfold broadcast_row. rewrite length_map. case_bool_decide; [done|].
  destruct v as [|x [|y v]]; simpl; try done.
  f_equal. symmetry. apply (fmap_replicate f).
Qed.

Lemma setrow_in_range a i v w :
  0 <= i < Z.of_nat (length a) ->
  Forall (fun row => length row = w) a ->
  setrow a i v = (row ← broadcast_row w v; mret (<[Z.to_nat i := row]> a)).
Proof.
  intros H Hrows. unfold setrow. rewrite np_index_in_range by done.
  destruct (lookup_lt_is_Some_2 a (Z.to_nat i)) as [old Hold]; [lia|].
  rewrite Hold. rewrite Forall_lookup in Hrows.
  by rewrite (Hrows _ _ Hold).
Qed.

(** ** [add] *)

Ltac break_rm rm :=
  destruct rm as [w h ms phi na fss cr im ac rw te li ll gl fu sz nrm wm bo tp];
  simpl in *.

Lemma add_full_bounded c rm :
  wrap_memory rm = false -> size rm = max_steps rm ->
  add_call c rm = (Ret tt, rm).
Proof.
  intros Hw Hs. unfold add_call, add. rewrite bind_get_self.
  rewrite Hw, Hs, Z.eqb_refl. reflexivity.
Qed.

Lemma write_index_range rm :
  wf rm -> negb (wrap_memory rm) && (size rm =? max_steps rm) = false ->
  0 <= write_index rm < max_steps rm.
Proof.
  intros Hwf Hc. unfold write_index.
  destruct (wrap_memory rm) eqn:Hw; simpl in Hc.
  - destruct (wf_ring _ Hwf Hw) as [Hb ->].
    apply Z.mod_pos_bound. lia.
  - apply Z.eqb_neq in Hc. pose proof (wf_size _ Hwf). lia.
Qed.

Lemma add_columns c rm :
  wf rm -> negb (wrap_memory rm) && (size rm =? max_steps rm) = false ->
  add_call c rm =
  ((self ← get_self;
     a ← lift (setrow (full_state self) (write_index rm)
                 (map to_uint8 (fullstate_operand c)));
     update (set_full_state a));;
    (self ← get_self;
     if wrap_memory self && (size self =? max_steps self) then
       b ← lift (py_mod (bottom self + 1) (max_steps self));
       update (set_bottom b)
     else
       update (set_size (size self + 1)));;
    (self ← get_self;
     if wrap_memory self then
       t ← lift (py_mod (top self + 1) (max_steps self));
       update (set_top t)
     else mret tt)) (write_columns (Z.to_nat (write_index rm)) c rm).
Proof.
  intros Hwf Hc. pose proof (write_index_range _ Hwf Hc) as Hi.
  unfold add_call, add. rewrite bind_get_self. rewrite Hc.
  fold (write_index rm). generalize dependent (write_index rm). intros idx Hi.
  destruct Hwf. break_rm rm.
  do 7 (erewrite bind_ret; [| apply assign_in_range; simpl; lia]).
  reflexivity.
Qed.

Lemma add_writes c rm row :
  wf rm -> negb (wrap_memory rm) && (size rm =? max_steps rm) = false ->
  broadcast_row (Z.to_nat (full_state_size rm)) (fullstate_operand c) = Ret row ->
  add_call c rm
  = (Ret tt, advance (write_slot (Z.to_nat (write_index rm)) c row rm)).
Proof.
  intros Hwf Hc Hrow. pose proof (write_index_range _ Hwf Hc) as Hi.
  rewrite add_columns by done.
  generalize dependent (write_index rm). intros idx Hi.
  destruct Hwf. break_rm rm.
  erewrite bind_ret; cycle 1.
  { rewrite bind_get_self. erewrite bind_lift_ret; [reflexivity|].
    simpl. erewrite setrow_in_range; [| lia | eassumption].
    rewrite broadcast_row_map, Hrow. reflexivity. }
  assert ((ms =? 0) = false) as Hm by (apply Z.eqb_neq; lia).
  unfold advance, write_slot, mbind, M_bind, get_self, update, lift, py_mod.
  simpl.
  destruct wm, (sz =? ms);
    simpl in *; try discriminate; rewrite ?Hm; simpl; rewrite ?Hm;
    reflexivity.
Qed.

Lemma add_mismatch c rm :
  wf rm -> negb (wrap_memory rm) && (size rm =? max_steps rm) = false ->
  broadcast_row (Z.to_nat (full_state_size rm)) (fullstate_operand c)
  = Raise ValueError ->
  add_call c rm
  = (Raise ValueError, write_columns (Z.to_nat (write_index rm)) c rm).
Proof.
  intros Hwf Hc Hrow. pose proof (write_index_range _ Hwf Hc) as Hi.
  rewrite add_columns by done.
  generalize dependent (write_index rm). intros idx Hi.
  destruct Hwf. break_rm rm.
  erewrite bind_raise; [reflexivity|].
  rewrite bind_get_self.
  erewrite bind_lift_raise; [reflexivity|].
  simpl. erewrite setrow_in_range; [| lia | eassumption].
  by rewrite broadcast_row_map, Hrow.
Qed.

Lemma wf_write_columns idx c rm : wf rm -> wf (write_columns idx c rm).
Proof.
  intros []. break_rm rm.
  constructor; simpl in *; rewrite ?length_insert; done.
Qed.

Lemma wf_write_slot idx c row rm :
  wf rm -> length row = Z.to_nat (full_state_size rm) ->
  wf (write_slot idx c row rm).
Proof.
  intros [] Hrow. break_rm rm.
  constructor; simpl in *; rewrite ?length_insert; try done.
  apply Forall_insert; [done|]. by rewrite length_map.
Qed.

Lemma wf_advance rm :
  wf rm -> negb (wrap_memory rm) && (size rm =? max_steps rm) = false ->
  wf (advance rm).
Proof.
  intros [? ? ? ? ? ? ? ? ? ? ? ? Hring] Hc. break_rm rm.
  unfold advance. simpl in *.
  destruct wm; simpl in *.
  - destruct (Hring eq_refl) as [Hb Ht].
    destruct (Z.eqb_spec sz ms) as [Hs|Hs]; simpl.
    + constructor; simpl; try done. intros _. split.
      * apply Z.mod_pos_bound. lia.
      * rewrite Ht, Hs. rewrite !Z.add_mod_idemp_l by lia. f_equal. lia.
    + constructor; simpl; try done; try lia. intros _. split; [done|].
      rewrite Ht. rewrite Z.add_mod_idemp_l by lia. f_equal. lia.
  - apply Z.eqb_neq in Hc. constructor; simpl; try done; lia.
Qed.

Lemma demo_bounded_init : __init__ 1 1 2 2 2 false 3 true = Ret demo_bounded.
Proof. reflexivity. Qed.

Lemma demo_wrapping_init : __init__ 1 1 2 2 2 true 3 true = Ret demo_wrapping.
Proof. reflexivity. Qed.

Lemma wf_demo_bounded : wf demo_bounded.
Proof.
  constructor; simpl; try lia; try done; by repeat constructor.
Qed.

Lemma wf_demo_wrapping : wf demo_wrapping.
Proof.
  constructor; simpl; try lia; try done; try (by repeat constructor).
Qed.

(** The constructor makes well-formed buffers. *)
Lemma wf_init width height max_steps phi_length num_actions wrap_memory
    full_state_size clip_reward rm :
  __init__ width height max_steps phi_length num_actions wrap_memory
    full_state_size clip_reward = Ret rm ->
  0 <= phi_length -> (wrap_memory = true -> 0 < max_steps) ->
  wf rm.
Proof.
  unfold __init__, np_zeros, np_zeros2. intros Hinit Hphi Hwrap.
  destruct (Z.ltb_spec max_steps 0); [discriminate|].
  destruct (Z.ltb_spec height 0); [discriminate|].
  destruct (Z.ltb_spec width 0); [discriminate|].
  destruct (Z.ltb_spec full_state_size 0); [discriminate|].
  simpl in Hinit. injection Hinit as <-.
  constructor; simpl; rewrite ?length_replicate; try lia.
  - apply Forall_replicate. apply length_replicate.
  - intros Hw. specialize (Hwrap Hw). split; [lia|].
    rewrite Z.add_0_l. symmetry. apply Z.mod_0_l. lia.
Qed.

Lemma add_cases c rm :
  wf rm ->
  (wrap_memory rm = false /\ size rm = max_steps rm
   /\ add_call c rm = (Ret tt, rm))
  \/ (negb (wrap_memory rm) && (size rm =? max_steps rm) = false
      /\ exists row,
           broadcast_row (Z.to_nat (full_state_size rm)) (fullstate_operand c)
           = Ret row
           /\ add_call c rm
              = (Ret tt,
                 advance (write_slot (Z.to_nat (write_index rm)) c row rm)))
  \/ (negb (wrap_memory rm) && (size rm =? max_steps rm) = false
      /\ add_call c rm
         = (Raise ValueError,
            write_columns (Z.to_nat (write_index rm)) c rm)).
Proof.
  intros Hwf.
  destruct (negb (wrap_memory rm) && (size rm =? max_steps rm)) eqn:Hc.
  - left. apply andb_true_iff in Hc as [Hw Hs].
    apply negb_true_iff in Hw. apply Z.eqb_eq in Hs.
    auto using add_full_bounded.
  - right.
    destruct (broadcast_row_cases (Z.to_nat (full_state_size rm))
                (fullstate_operand c)) as [[row Hrow]|Hrow].
    + left. split; [done|]. exists row. auto using add_writes.
    + right. auto using add_mismatch.
Qed.

Lemma write_columns_fields idx c rm :
  let rm' := write_columns idx c rm in
  size rm' = size rm /\ max_steps rm' = max_steps rm
  /\ wrap_memory rm' = wrap_memory rm /\ bottom rm' = bottom rm
  /\ top rm' = top rm /\ full_state rm' = full_state rm
  /\ full_state_size rm' = full_state_size rm.
Proof. break_rm rm. repeat split. Qed.

Lemma write_slot_fields idx c row rm :
  let rm' := write_slot idx c row rm in
  size rm' = size rm /\ max_steps rm' = max_steps rm
  /\ wrap_memory rm' = wrap_memory rm /\ bottom rm' = bottom rm
  /\ top rm' = top rm /\ full_state_size rm' = full_state_size rm
  /\ slot_written idx c row rm rm'.
Proof. break_rm rm. unfold slot_written. simpl. repeat split. Qed.

Lemma advance_fields rm :
  let rm' := advance rm in
  max_steps rm' = max_steps rm /\ wrap_memory rm' = wrap_memory rm
  /\ full_state_size rm' = full_state_size rm
  /\ imgs rm' = imgs rm /\ actions rm' = actions rm
  /\ rewards rm' = rewards rm /\ terminal rm' = terminal rm
  /\ lives rm' = lives rm /\ loss_life rm' = loss_life rm
  /\ gain_life rm' = gain_life rm /\ full_state rm' = full_state rm.
Proof.
  break_rm rm. unfold advance. simpl.
  destruct wm, (sz =? ms); simpl; repeat split.
Qed.

Lemma advance_cursors rm :
  let rm' := advance rm in
  (wrap_memory rm = false ->
   size rm' = size rm + 1 /\ bottom rm' = bottom rm /\ top rm' = top rm)
  /\ (wrap_memory rm = true ->
      top rm' = (top rm + 1) mod max_steps rm
      /\ (size rm = max_steps rm ->
          size rm' = size rm
          /\ bottom rm' = (bottom rm + 1) mod max_steps rm)
      /\ (size rm <> max_steps rm ->
          size rm' = size rm + 1 /\ bottom rm' = bottom rm)).
Proof.
  break_rm rm. unfold advance. simpl.
  destruct wm, (Z.eqb_spec sz ms); simpl; repeat split; intros;
    try discriminate; try congruence.
Qed.

Lemma add_preserves c rm :
  wf rm ->
  let rm' := snd (add_call c rm) in
  wf rm' /\ max_steps rm' = max_steps rm
  /\ wrap_memory rm' = wrap_memory rm
  /\ full_state_size rm' = full_state_size rm.
Proof.
  intros Hwf.
  destruct (add_cases c rm Hwf)
    as [(Hw & Hs & ->) | [(Hc & row & Hrow & ->) | (Hc & ->)]]; simpl.
  - done.
  - pose proof (write_slot_fields (Z.to_nat (write_index rm)) c row rm)
      as (Hsz & Hms & Hwm & _ & _ & Hfs & _).
    pose proof (advance_fields
                  (write_slot (Z.to_nat (write_index rm)) c row rm))
      as (Hms' & Hwm' & Hfs' & _).
    simpl in *. split; [|by rewrite Hms', Hwm', Hfs'].
    apply wf_advance.
    + apply wf_write_slot; [done|]. eauto using broadcast_row_length.
    + by rewrite Hwm, Hsz, Hms.
  - pose proof (write_columns_fields (Z.to_nat (write_index rm)) c rm)
      as (_ & Hms & Hwm & _ & _ & _ & Hfs).
    simpl in *. auto using wf_write_columns.
Qed.

Lemma run_adds_cons c cs rm :
  run_adds (c :: cs) rm = run_adds cs (snd (add_call c rm)).
Proof. reflexivity. Qed.

Lemma run_adds_preserves cs rm :
  wf rm ->
  wf (run_adds cs rm) /\ max_steps (run_adds cs rm) = max_steps rm
  /\ wrap_memory (run_adds cs rm) = wrap_memory rm
  /\ full_state_size (run_adds cs rm) = full_state_size rm.
Proof.
  revert rm. induction cs as [|c cs IH]; intros rm Hwf; [done|].
  rewrite run_adds_cons.
  destruct (add_preserves c rm Hwf) as (Hwf' & Hms & Hwm & Hfs).
  destruct (IH _ Hwf') as (? & ? & ? & ?).
  split; [done|]. repeat split; congruence.
Qed.

(** Claim C2, as amended.  In bounded mode, whatever calls of [add] are
    made (of any arguments, returning or raising), [size] never exceeds
    [max_steps] and [max_steps] does not change; on a full buffer a call
    returns and leaves the buffer as it was; on a buffer that is not
    full a call of machine numbers whose [fullstate] operand can be
    assigned to a row returns, stores its record in slot [size] of
    every array (a slot inside the arrays), each value converted to the
    element type of its array, and increments [size] by exactly one. *)
Theorem add_bounded_mode (rm : ReplayMemory) :
  wf rm -> wrap_memory rm = false ->
  (forall cs, size (run_adds cs rm) <= max_steps rm
              /\ max_steps (run_adds cs rm) = max_steps rm)
  /\ (size rm = max_steps rm -> forall c, add_call c rm = (Ret tt, rm))
  /\ (size rm <> max_steps rm ->
      forall c row,
        machine_call rm c ->
        broadcast_row (Z.to_nat (full_state_size rm)) (fullstate_operand c)
        = Ret row ->
        let rm' := snd (add_call c rm) in
        fst (add_call c rm) = Ret tt
        /\ slot_written (Z.to_nat (size rm)) c row rm rm'
        /\ (Z.to_nat (size rm) < length (imgs rm))%nat
        /\ size rm' = size rm + 1).
Proof.
  intros Hwf Hw. split; [|split].
  - intros cs. destruct (run_adds_preserves cs rm Hwf) as (Hwf' & Hms & _).
    split; [|done]. rewrite <- Hms. apply (wf_size _ Hwf').
  - intros Hs c. by apply add_full_bounded.
  - intros Hs c row _ Hrow.
    assert (negb (wrap_memory rm) && (size rm =? max_steps rm) = false) as Hc.
    { rewrite Hw. simpl. by apply Z.eqb_neq. }
    rewrite (add_writes c rm row Hwf Hc Hrow). simpl.
    unfold write_index. rewrite Hw.
    pose proof (write_slot_fields (Z.to_nat (size rm)) c row rm)
      as (Hsz & Hms & Hwm & _ & _ & _ & Hsl).
    pose proof (advance_fields (write_slot (Z.to_nat (size rm)) c row rm))
      as (_ & _ & _ & Hi & Ha & Hr & Ht & Hl & Hll & Hgl & Hf).
    pose proof (advance_cursors (write_slot (Z.to_nat (size rm)) c row rm))
      as [Hadv _].
    simpl in *. rewrite Hwm in Hadv. destruct (Hadv Hw) as (Hsz' & _).
    split; [done|]. split.
    { unfold slot_written in *. rewrite Hi, Ha, Hr, Ht, Hl, Hll, Hgl, Hf.
      exact Hsl. }
    split; [|lia].
    pose proof (wf_size _ Hwf). pose proof (wf_imgs _ Hwf). lia.
Qed.

Lemma typed_frame_demo rm :
  height rm = 1 -> width rm = 1 -> imgs_normalized rm = false ->
  typed_frame rm [[1%Q]].
Proof.
  intros Hh Hw Hn. unfold typed_frame. rewrite Hh, Hw, Hn.
  split; [reflexivity|]. repeat constructor.
  exists 1. split; [lia|reflexivity].
Qed.

Lemma machine_demo_call rm t :
  height rm = 1 -> width rm = 1 -> imgs_normalized rm = false ->
  int64 t -> machine_call rm (demo_call t).
Proof.
  intros Hh Hw Hn Ht.
  unfold machine_call, demo_call, fullstate_operand, int64 in *.
  cbn [c_img c_action c_terminal c_lives c_losslife c_gainlife c_reward
       c_fullstate default].
  split; [by apply typed_frame_demo|].
  do 5 (split; [lia|]). split; [repeat constructor; lia|].
  by vm_compute.
Qed.

Lemma add_bounded_mode_witness :
  (wf demo_bounded /\ wrap_memory demo_bounded = false
   /\ size demo_bounded <> max_steps demo_bounded
   /\ machine_call demo_bounded (demo_call 0)
   /\ broadcast_row (Z.to_nat (full_state_size demo_bounded))
        (fullstate_operand (demo_call 0)) = Ret [7; 8; 9])
  /\ size (run_adds [demo_call 0; demo_call 1; demo_call 0] demo_bounded) <= 2
  /\ size (snd (add_call (demo_call 0) demo_bounded)) = 1.
Proof.
  assert (size demo_bounded <> max_steps demo_bounded) as Hs by discriminate.
  assert (machine_call demo_bounded (demo_call 0)) as Hm
    by (apply machine_demo_call; try reflexivity; unfold int64; lia).
  split.
  { split; [exact wf_demo_bounded|]. split; [reflexivity|].
    split; [exact Hs|]. split; [exact Hm|reflexivity]. }
  split.
  - exact (proj1 (proj1 (add_bounded_mode demo_bounded wf_demo_bounded
                           eq_refl)
                    [demo_call 0; demo_call 1; demo_call 0])).
  - exact (proj2 (proj2 (proj2
             (proj2 (proj2 (add_bounded_mode demo_bounded wf_demo_bounded
                              eq_refl))
                Hs (demo_call 0) [7; 8; 9] Hm eq_refl)))).
Defined.

(** On a bounded buffer that is not full, a call of [add] whose
    [fullstate] has two entries for a row of three does not store its
    record and does not increment [size]: the row assignment raises
    [ValueError].  So does a call that omits [fullstate].  A call that
    is stored leaves 44 in [actions] for the action 300. *)
Lemma add_bounded_not_always_written :
  wf demo_bounded /\ wrap_memory demo_bounded = false
  /\ size demo_bounded <> max_steps demo_bounded
  /\ full_state_size demo_bounded = 3
  /\ fst (add [[1%Q]] 1 1 0 3 0 0 (Some [7; 8]) demo_bounded)
     = Raise ValueError
  /\ size (snd (add [[1%Q]] 1 1 0 3 0 0 (Some [7; 8]) demo_bounded))
     <> size demo_bounded + 1
  /\ full_state (snd (add [[1%Q]] 1 1 0 3 0 0 (Some [7; 8]) demo_bounded))
     = full_state demo_bounded
  /\ fst (add [[1%Q]] 1 1 0 3 0 0 None demo_bounded) = Raise ValueError
  /\ size (snd (add [[1%Q]] 1 1 0 3 0 0 None demo_bounded))
     <> size demo_bounded + 1
  /\ actions (snd (add [[1%Q]] 300 1 0 3 0 0 (Some [7; 8; 9]) demo_bounded))
     !! 0%nat = Some 44.
Proof.
  split; [exact wf_demo_bounded|]. split; [reflexivity|].
  split; [discriminate|]. split; [reflexivity|].
  split; [vm_compute; reflexivity|]. split; [vm_compute; discriminate|].
  split; [vm_compute; reflexivity|].
  split; [vm_compute; reflexivity|].
  split; [vm_compute; discriminate|vm_compute; reflexivity].
Qed.

Lemma add_wrapping_step c rm :
  wf rm -> wrap_memory rm = true -> fits rm c ->
  size (snd (add_call c rm)) = Z.min (size rm + 1) (max_steps rm).
Proof.
  intros Hwf Hw Hfit.
  assert (negb (wrap_memory rm) && (size rm =? max_steps rm) = false) as Hc
    by (by rewrite Hw).
  unfold fits in Hfit.
  destruct (broadcast_row (Z.to_nat (full_state_size rm)) (fullstate_operand c))
    as [row|e] eqn:Hrow; [|discriminate].
  rewrite (add_writes c rm row Hwf Hc Hrow). simpl.
  pose proof (write_slot_fields (Z.to_nat (write_index rm)) c row rm)
    as (Hsz & Hms & Hwm & _).
  pose proof (advance_cursors (write_slot (Z.to_nat (write_index rm)) c row rm))
    as [_ Hadv].
  simpl in *. rewrite Hwm, Hsz, Hms in Hadv.
  destruct (Hadv Hw) as (_ & Hfull & Hpart).
  pose proof (wf_size _ Hwf).
  destruct (Z.eq_dec (size rm) (max_steps rm)) as [Hs|Hs].
  - destruct (Hfull Hs) as [-> _]. lia.
  - destruct (Hpart Hs) as [-> _]. lia.
Qed.

Lemma run_adds_wrapping_size cs rm :
  wf rm -> wrap_memory rm = true -> Forall (fits rm) cs ->
  size (run_adds cs rm)
  = Z.min (size rm + Z.of_nat (length cs)) (max_steps rm).
Proof.
  revert rm. induction cs as [|c cs IH]; intros rm Hwf Hw Hfit.
  - simpl. pose proof (wf_size _ Hwf). lia.
  - rewrite run_adds_cons. inversion Hfit as [|? ? Hc Hcs]; subst.
    destruct (add_preserves c rm Hwf) as (Hwf' & Hms & Hwm & Hfs).
    rewrite IH; [| done | congruence |].
    + rewrite add_wrapping_step by done. rewrite Hms.
      simpl length. lia.
    + eapply Forall_impl; [exact Hcs|]. intros c'. unfold fits.
      by rewrite Hfs.
Qed.

(** Claim C3, as amended.  In wrapping mode a call of [add] of machine
    numbers whose [fullstate] operand can be assigned to a row returns
    and stores its record in slot [top] of every array, each value
    converted to the element type of its array; [top] advances by one
    modulo [max_steps]; on a full buffer [bottom] advances by one
    modulo [max_steps], [size] stays at [max_steps] and the slot written
    is the
    one [bottom] pointed at, the oldest record; otherwise [size] grows
    by one and [bottom] stays.  Hence any run of such calls long enough
    to fill the buffer, and any longer one, ends with [size] equal to
    [max_steps]. *)
Theorem add_wrapping_mode (rm : ReplayMemory) :
  wf rm -> wrap_memory rm = true ->
  (forall c row,
     machine_call rm c ->
     broadcast_row (Z.to_nat (full_state_size rm)) (fullstate_operand c)
     = Ret row ->
     let rm' := snd (add_call c rm) in
     fst (add_call c rm) = Ret tt
     /\ slot_written (Z.to_nat (top rm)) c row rm rm'
     /\ (Z.to_nat (top rm) < length (imgs rm))%nat
     /\ top rm' = (top rm + 1) mod max_steps rm
     /\ (size rm = max_steps rm ->
         bottom rm' = (bottom rm + 1) mod max_steps rm
         /\ size rm' = max_steps rm
         /\ top rm = bottom rm)
     /\ (size rm <> max_steps rm ->
         bottom rm' = bottom rm /\ size rm' = size rm + 1))
  /\ (forall cs,
        Forall (machine_call rm) cs ->
        Forall (fits rm) cs ->
        max_steps rm <= size rm + Z.of_nat (length cs) ->
        size (run_adds cs rm) = max_steps rm).
Proof.
  intros Hwf Hw. split.
  - intros c row _ Hrow.
    assert (negb (wrap_memory rm) && (size rm =? max_steps rm) = false) as Hc
      by (by rewrite Hw).
    pose proof (write_index_range rm Hwf Hc) as Hidx.
    rewrite (add_writes c rm row Hwf Hc Hrow). simpl.
    unfold write_index in *. rewrite Hw in *.
    pose proof (write_slot_fields (Z.to_nat (top rm)) c row rm)
      as (Hsz & Hms & Hwm & Hbo & Htp & _ & Hsl).
    pose proof (advance_fields (write_slot (Z.to_nat (top rm)) c row rm))
      as (_ & _ & _ & Hi & Ha & Hr & Ht & Hl & Hll & Hgl & Hf).
    pose proof (advance_cursors (write_slot (Z.to_nat (top rm)) c row rm))
      as [_ Hadv].
    simpl in *. rewrite Hwm, Hsz, Hms, Hbo, Htp in Hadv.
    destruct (Hadv Hw) as (Htop & Hfull & Hpart).
    split; [done|]. split.
    { unfold slot_written in *. rewrite Hi, Ha, Hr, Ht, Hl, Hll, Hgl, Hf.
      exact Hsl. }
    split; [pose proof (wf_imgs _ Hwf); lia|].
    split; [done|]. split.
    + intros Hs. destruct (Hfull Hs) as [Hs' Hb']. split; [done|].
      split; [congruence|].
      destruct (wf_ring _ Hwf Hw) as [Hb Ht'].
      rewrite Ht', Hs.
      rewrite <- (Z.mul_1_l (max_steps rm)) at 1.
      rewrite Z_mod_plus_full. apply Z.mod_small. lia.
    + intros Hs. destruct (Hpart Hs). done.
  - intros cs _ Hfit Hlen.
    rewrite run_adds_wrapping_size by done. lia.
Qed.

Lemma add_wrapping_mode_witness :
  (wf demo_wrapping /\ wrap_memory demo_wrapping = true
   /\ Forall (machine_call demo_wrapping)
        [demo_call 0; demo_call 1; demo_call 0]
   /\ Forall (fits demo_wrapping) [demo_call 0; demo_call 1; demo_call 0]
   /\ max_steps demo_wrapping
      <= size demo_wrapping
         + Z.of_nat (length [demo_call 0; demo_call 1; demo_call 0]))
  /\ size (run_adds [demo_call 0; demo_call 1; demo_call 0] demo_wrapping) = 2.
Proof.
  assert (Forall (machine_call demo_wrapping)
            [demo_call 0; demo_call 1; demo_call 0]) as Hm
    by (do 3 (constructor;
                [apply machine_demo_call; try reflexivity; unfold int64; lia|]);
        constructor).
  assert (Forall (fits demo_wrapping) [demo_call 0; demo_call 1; demo_call 0])
    as Hfit by (repeat constructor).
  assert (max_steps demo_wrapping
          <= size demo_wrapping
             + Z.of_nat (length [demo_call 0; demo_call 1; demo_call 0]))
    as Hlen by (simpl; lia).
  split.
  { split; [exact wf_demo_wrapping|]. split; [reflexivity|].
    split; [exact Hm|]. split; [exact Hfit|exact Hlen]. }
  exact (proj2 (add_wrapping_mode demo_wrapping wf_demo_wrapping eq_refl)
           [demo_call 0; demo_call 1; demo_call 0] Hm Hfit Hlen).
Defined.

(** In wrapping mode a call of [add] whose [fullstate] has two entries
    for a row of three does not advance [top] and does not change
    [size], so [max_steps] such calls do not fill the buffer: the row
    assignment raises [ValueError].  So does a call that omits
    [fullstate].  A call that is stored leaves 44 in [actions] for the
    action 300. *)
Lemma add_wrapping_not_always_advancing :
  wf demo_wrapping /\ wrap_memory demo_wrapping = true
  /\ max_steps demo_wrapping = 2 /\ full_state_size demo_wrapping = 3
  /\ fst (add [[1%Q]] 1 1 0 3 0 0 (Some [7; 8]) demo_wrapping)
     = Raise ValueError
  /\ top (snd (add [[1%Q]] 1 1 0 3 0 0 (Some [7; 8]) demo_wrapping))
     <> (top demo_wrapping + 1) mod max_steps demo_wrapping
  /\ size (run_adds [mkCall [[1%Q]] 1 1 0 3 0 0 (Some [7; 8]);
                     mkCall [[1%Q]] 1 1 0 3 0 0 (Some [7; 8])] demo_wrapping)
     <> max_steps demo_wrapping
  /\ fst (add [[1%Q]] 1 1 0 3 0 0 None demo_wrapping) = Raise ValueError
  /\ top (snd (add [[1%Q]] 1 1 0 3 0 0 None demo_wrapping))
     <> (top demo_wrapping + 1) mod max_steps demo_wrapping
  /\ actions (snd (add [[1%Q]] 300 1 0 3 0 0 (Some [7; 8; 9]) demo_wrapping))
     !! 0%nat = Some 44.
Proof.
  split; [exact wf_demo_wrapping|]. split; [reflexivity|].
  split; [reflexivity|]. split; [reflexivity|].
  split; [vm_compute; reflexivity|]. split; [vm_compute; discriminate|].
  split; [vm_compute; discriminate|].
  split; [vm_compute; reflexivity|].
  split; [vm_compute; discriminate|vm_compute; reflexivity].
Qed.



(** ** The window accessor *)

Lemma elem_of_arange i lo hi : i ∈ arange lo hi <-> lo <= i < hi.
Proof.
  unfold arange. rewrite list_elem_of_In, in_map_iff. split.
  - intros (n & <- & Hn). apply in_seq in Hn. lia.
  - intros H. exists (Z.to_nat (i - lo)). split; [lia|].
    apply in_seq. lia.
Qed.

Lemma removelast_arange lo hi : removelast (arange lo hi) = arange lo (hi - 1).
Proof.
  unfold arange. destruct (Z.le_gt_cases hi lo) as [H|H].
  - replace (Z.to_nat (hi - lo)) with 0%nat by lia.
    replace (Z.to_nat (hi - 1 - lo)) with 0%nat by lia. reflexivity.
  - replace (Z.to_nat (hi - lo)) with (S (Z.to_nat (hi - 1 - lo))) by lia.
    rewrite seq_S, map_app. simpl. apply removelast_last.
Qed.

Lemma take_cases {A} mode (a : list A) indices :
  (exists xs, take mode a indices = Ret xs
              /\ Forall2 (fun i x => take1 mode a i = Ret x) indices xs)
  \/ (exists e, take mode a indices = Raise e).
Proof.
  induction indices as [|i rest IH]; simpl.
  - left. eexists. split; [reflexivity|constructor].
  - unfold mbind, outcome_bind, mret, outcome_ret.
    destruct (take1 mode a i) as [x|e] eqn:Hx; [|right; eauto].
    destruct IH as [(xs & -> & Hxs)|(e & ->)]; [|right; eauto].
    left. exists (x :: xs). split; [done|]. by constructor.
Qed.

Lemma take_total {A} mode (a : list A) indices :
  (forall i, i ∈ indices -> exists x, take1 mode a i = Ret x) ->
  exists xs, take mode a indices = Ret xs
             /\ Forall2 (fun i x => take1 mode a i = Ret x) indices xs.
Proof.
  induction indices as [|i rest IH]; intros Hall; simpl.
  - eexists. split; [reflexivity|constructor].
  - unfold mbind, outcome_bind, mret, outcome_ret.
    destruct (Hall i) as [x Hx]; [by left|]. rewrite Hx.
    destruct IH as (xs & -> & Hxs); [intros; apply Hall; by right|].
    exists (x :: xs). split; [done|]. by constructor.
Qed.

Lemma np_any_true_iff a :
  np_any a = true <-> exists t, t ∈ a /\ t <> 0.
Proof.
  unfold np_any. rewrite existsb_exists. split.
  - intros (t & Hin & Ht). exists t. rewrite list_elem_of_In.
    split; [done|]. apply negb_true_iff, Z.eqb_neq in Ht. done.
  - intros (t & Hin & Ht). exists t. rewrite <- list_elem_of_In.
    split; [done|]. by apply negb_true_iff, Z.eqb_neq.
Qed.

Lemma Forall2_any_flag (f : Z -> outcome Z) indices xs :
  Forall2 (fun i x => f i = Ret x) indices xs ->
  (exists t, t ∈ xs /\ t <> 0)
  <-> (exists i t, i ∈ indices /\ f i = Ret t /\ t <> 0).
Proof.
  induction 1 as [|i x indices xs Hix _ IH].
  - split; [intros (t & Hin & _) | intros (i & t & Hin & _)];
      by apply elem_of_nil in Hin.
  - split.
    + intros (t & Hin & Ht). apply elem_of_cons in Hin as [->|Hin].
      * exists i, x. split; [by left|done].
      * destruct (proj1 IH) as (j & t' & ? & ? & ?); [eauto|].
        exists j, t'. split; [by right|done].
    + intros (j & t & Hin & Hj & Ht). apply elem_of_cons in Hin as [->|Hin].
      * exists t. split; [|done]. rewrite Hix in Hj. injection Hj as ->.
        by left.
      * destruct (proj2 IH) as (t' & ? & ?); [eauto|].
        exists t'. split; [by right|done].
Qed.

Lemma take1_raise_in_range {A} (a : list A) i x :
  0 <= i < Z.of_nat (length a) ->
  take1 mode_raise a i = Ret x <-> a !! Z.to_nat i = Some x.
Proof.
  intros H. simpl. unfold getitem. rewrite np_index_in_range by done.
  destruct (a !! Z.to_nat i); split; congruence.
Qed.

Lemma take1_wrap {A} (a : list A) i x :
  take1 mode_wrap a i = Ret x
  <-> a !! Z.to_nat (i mod Z.of_nat (length a)) = Some x.
Proof.
  simpl. unfold getitem_wrap.
  destruct (a !! Z.to_nat (i mod Z.of_nat (length a))); split; congruence.
Qed.

Lemma take1_wrap_total {A} (a : list A) i :
  (0 < length a)%nat -> exists x, take1 mode_wrap a i = Ret x.
Proof.
  intros H. simpl. unfold getitem_wrap.
  destruct (lookup_lt_is_Some_2 a (Z.to_nat (i mod Z.of_nat (length a))))
    as [x ->]; [|eauto].
  pose proof (Z.mod_pos_bound i (Z.of_nat (length a))). lia.
Qed.

Lemma zero_state_wf rm :
  wf rm -> exists zeros, zero_state rm = Ret zeros.
Proof.
  intros Hwf. destruct (wf_shape _ Hwf) as (Hh & Hw & Hp).
  unfold zero_state.
  destruct (Z.ltb_spec (height rm) 0); [lia|].
  destruct (Z.ltb_spec (width rm) 0); [lia|].
  destruct (Z.ltb_spec (phi_length rm) 0); [lia|]. simpl. eauto.
Qed.

Lemma fetch_window_available mode key zeros self :
  fetch_window mode key zeros self <> Ret Unavailable.
Proof.
  unfold fetch_window, mbind, outcome_bind, mret, outcome_ret.
  repeat match goal with
         | |- context [match ?o with Ret _ => _ | Raise _ => _ end] =>
             destruct o; try discriminate
         | |- context [if ?b then _ else _] => destruct b
         end.
Qed.

Lemma getitem_unfold key self :
  __getitem__ key self =
  (zeros ← zero_state self;
   checked ←
    (if wrap_memory self then
       flags ← take mode_wrap (terminal self)
                 (arange key (key + phi_length self - 1));
       mret (if np_any flags then None else Some mode_wrap)
     else if size self <=? key + phi_length self - 1 then mret None
     else
       flags ← take mode_raise (terminal self)
                 (arange key (key + phi_length self - 1));
       mret (if np_any flags then None else Some mode_raise));
   match checked with
   | None => mret Unavailable
   | Some mode => fetch_window mode key zeros self
   end).
Proof. unfold __getitem__. rewrite removelast_arange. reflexivity. Qed.

(** Claim C1.  On a well-formed buffer and for every logical index
    [k >= 0], the window accessor returns the unavailable result exactly
    when the buffer is bounded and the window's last offset
    [k + phi_length - 1] is not below [size], or some terminal flag at
    an offset between [k] and [k + phi_length - 2] is set.  The flag at
    the last offset does not enter the condition. *)
Theorem getitem_unavailable_iff (rm : ReplayMemory) (k : Z) :
  wf rm -> 0 <= k ->
  __getitem__ k rm = Ret Unavailable
  <-> (wrap_memory rm = false /\ size rm <= k + phi_length rm - 1)
      \/ (exists j, k <= j <= k + phi_length rm - 2 /\ flag_set rm j).
Proof.
  intros Hwf Hk. rewrite getitem_unfold.
  destruct (zero_state_wf rm Hwf) as [zeros ->].
  pose proof (wf_size _ Hwf) as Hsz. pose proof (wf_terminal _ Hwf) as Hlen.
  unfold mbind at 1. unfold outcome_bind at 1.
  unfold flag_set.
  destruct (wrap_memory rm) eqn:Hw.
  - (* wrapping mode *)
    destruct (wf_ring _ Hwf Hw) as [Hb _].
    destruct (take_total mode_wrap (terminal rm)
                (arange k (k + phi_length rm - 1))) as (flags & -> & Hfl).
    { intros i _. apply take1_wrap_total. lia. }
    unfold mbind, outcome_bind, mret, outcome_ret.
    pose proof (Forall2_any_flag _ _ _ Hfl) as Hany.
    destruct (np_any flags) eqn:Hnp.
    + split; [intros _|done]. right.
      destruct (proj1 Hany) as (j & t & Hj & Ht & Hne).
      { by apply np_any_true_iff. }
      apply elem_of_arange in Hj. apply take1_wrap in Ht.
      exists j. split; [lia|]. eauto.
    + split.
      * intros H. by apply fetch_window_available in H.
      * intros [[? _]|(j & Hj & t & Ht & Hne)]; [discriminate|].
        assert (np_any flags = true); [|congruence].
        apply np_any_true_iff, Hany. exists j, t.
        split; [apply elem_of_arange; lia|].
        split; [by apply take1_wrap|done].
  - (* bounded mode *)
    destruct (Z.leb_spec (size rm) (k + phi_length rm - 1)) as [Hend|Hend].
    + split; [intros _|done]. left. done.
    + destruct (take_total mode_raise (terminal rm)
                  (arange k (k + phi_length rm - 1))) as (flags & -> & Hfl).
      { intros i Hi. apply elem_of_arange in Hi.
        destruct (getitem_in_range (terminal rm) i) as (x & _ & Hx); [lia|].
        eauto. }
      unfold mbind, outcome_bind, mret, outcome_ret.
      pose proof (Forall2_any_flag _ _ _ Hfl) as Hany.
      destruct (np_any flags) eqn:Hnp.
      * split; [intros _|done]. right.
        destruct (proj1 Hany) as (j & t & Hj & Ht & Hne).
        { by apply np_any_true_iff. }
        apply elem_of_arange in Hj.
        apply take1_raise_in_range in Ht; [|lia].
        exists j. split; [lia|]. eauto.
      * split.
        -- intros H. by apply fetch_window_available in H.
        -- intros [[_ ?]|(j & Hj & t & Ht & Hne)]; [lia|].
           assert (np_any flags = true); [|congruence].
           apply np_any_true_iff, Hany. exists j, t.
           split; [apply elem_of_arange; lia|].
           split; [apply take1_raise_in_range; [lia|done]|done].
Qed.

Lemma wf_demo_episode : wf demo_episode.
Proof.
  constructor; simpl; try lia; try done; by repeat constructor.
Qed.

Lemma getitem_unavailable_iff_witness :
  wf demo_episode /\ 0 <= 1 /\ __getitem__ 1 demo_episode = Ret Unavailable.
Proof.
  assert (0 <= 1) as H01 by lia.
  split; [exact wf_demo_episode|]. split; [exact H01|].
  apply (proj2 (getitem_unavailable_iff demo_episode 1 wf_demo_episode H01)).
  right. exists 1. split; [simpl; lia|].
  exists 1. split; [reflexivity|lia].
Defined.

(** A terminal flag at the last offset of the window: the window is
    returned, with the zero-filled successor state. *)
Example getitem_terminal_last :
  __getitem__ 0 demo_episode
  = Ret (Window [[[1%Q]]; [[2%Q]]] 1 1%Q 1 [[[0%Q]]; [[0%Q]]] 3 0 0).
Proof. reflexivity. Qed.

(** ** The samplers *)

Lemma name_s_unbound :
  load_name sample2_locals module_globals "s" = Raise NameError.
Proof. vm_compute. reflexivity. Qed.

(** The first iteration of the loop of [sample2] when the look-ahead
    filter is off. *)
Lemma sample2_first_iteration fuel rm batch_size normalize onevsall n_class
    high draws b :
  0 < batch_size -> 0 < high ->
  sample2_loop (S fuel) rm batch_size normalize 0 onevsall n_class high
    draws 0%nat 0 b
  = match __getitem__ (draws 0%nat mod high) rm with
    | Raise e => Some (Raise e)
    | Ret Unavailable => Some (Raise ValueError)
    | Ret (Window _ _ _ _ _ _ _ _) => Some (Raise NameError)
    end.
Proof.
  intros Hb Hh. simpl.
  destruct (Z.ltb_spec 0 batch_size); [|lia].
  unfold randint. destruct (Z.leb_spec high 0); [lia|].
  rewrite Z.add_0_l, Z.sub_0_r.
  destruct (__getitem__ (draws 0%nat mod high) rm) as [[|]|];
    first [reflexivity | by rewrite name_s_unbound].
Qed.

(** Claim C5, as amended.  On a bounded buffer that satisfies the
    sampling precondition, with [batch_size >= 1] and the look-ahead
    filter off, [sample2] never returns a batch, whatever the
    generator draws: its first iteration raises.  Once the response
    arrays are allocated, the exception is [NameError] (the unbound name
    [s]) when the window drawn first is fetched, [ValueError] when the
    accessor reports that window unavailable (six values cannot be
    unpacked into eight targets), and the accessor's own exception when
    it raises. *)
Theorem sample2_always_raises (rm : ReplayMemory) (draws : nat -> Z)
    (batch_size : Z) (normalize onevsall : bool) (n_class : option Z) :
  wrap_memory rm = false ->
  0 < size rm + 1 - phi_length rm ->
  1 <= batch_size ->
  (forall fuel b,
     sample2 fuel draws batch_size normalize 0 onevsall n_class rm
     <> Some (Ret b))
  /\ (forall fuel, exists e,
        sample2 (S fuel) draws batch_size normalize 0 onevsall n_class rm
        = Some (Raise e))
  /\ (forall fuel b0,
        alloc_batch rm batch_size onevsall false = Ret b0 ->
        sample2 (S fuel) draws batch_size normalize 0 onevsall n_class rm
        = match __getitem__ (first_index draws rm) rm with
          | Raise e => Some (Raise e)
          | Ret Unavailable => Some (Raise ValueError)
          | Ret (Window _ _ _ _ _ _ _ _) => Some (Raise NameError)
          end).
Proof.
  intros Hw Hhigh Hb.
  assert (forall fuel, exists e,
        sample2 (S fuel) draws batch_size normalize 0 onevsall n_class rm
        = Some (Raise e)) as Hraise.
  { intros fuel. unfold sample2. rewrite Hw.
    destruct (alloc_batch rm batch_size onevsall false) as [b0|e]; [|eauto].
    destruct (Z.leb_spec (size rm + 1 - phi_length rm) 0); [lia|].
    rewrite sample2_first_iteration by lia.
    destruct (__getitem__ _ rm) as [[|]|]; eauto. }
  split; [|split; [exact Hraise|]].
  - intros [|fuel] b.
    + unfold sample2. rewrite Hw.
      destruct (alloc_batch rm batch_size onevsall false) as [b0|e]; [|done].
      destruct (Z.leb_spec (size rm + 1 - phi_length rm) 0); [lia|].
      simpl. destruct (Z.ltb_spec 0 batch_size); [done|lia].
    + destruct (Hraise fuel) as [e ->]. done.
  - intros fuel b0 Hb0. unfold sample2. rewrite Hw, Hb0.
    destruct (Z.leb_spec (size rm + 1 - phi_length rm) 0); [lia|].
    by rewrite sample2_first_iteration by lia.
Qed.

Lemma sample2_always_raises_witness :
  wrap_memory demo_episode = false
  /\ 0 < size demo_episode + 1 - phi_length demo_episode
  /\ 1 <= 4
  /\ exists e,
       sample2 1 (fun _ => 0) 4 false 0 false None demo_episode
       = Some (Raise e).
Proof.
  assert (0 < size demo_episode + 1 - phi_length demo_episode) as Hh
    by (simpl; lia).
  assert (1 <= 4) as Hb by lia.
  split; [reflexivity|]. split; [exact Hh|]. split; [exact Hb|].
  exact (proj1 (proj2 (sample2_always_raises demo_episode (fun _ => 0) 4 false
                         false None eq_refl Hh Hb)) 0%nat).
Defined.

(** The statement of claim C5 fails on a buffer with a terminal flag
    inside the window drawn: the exception is [ValueError]. *)
Lemma sample2_not_always_name_error :
  wrap_memory demo_episode = false
  /\ 0 < size demo_episode + 1 - phi_length demo_episode
  /\ sample2 2 (fun _ => 1) 4 false 0 false None demo_episode
     = Some (Raise ValueError)
  /\ sample2 2 (fun _ => 1) 4 false 0 false None demo_episode
     <> Some (Raise NameError).
Proof.
  split; [reflexivity|]. split; [simpl; lia|].
  split; [vm_compute; reflexivity | vm_compute; discriminate].
Qed.

(** Claim C4, on [sample2].  The accessor reports the window at index 1
    unavailable without raising, and [sample2], drawing that index,
    raises [ValueError] at the unpacking instead of drawing again. *)
Theorem sample2_rejected_draw_raises :
  __getitem__ 1 demo_episode = Ret Unavailable
  /\ sample2 1 (fun _ => 1) 1 false 0 false None demo_episode
     = Some (Raise ValueError).
Proof. split; vm_compute; reflexivity. Qed.

(** The wrapping-mode sampler does draw again: its own flag test rejects
    the first index drawn, and the second one is accepted. *)
Example sample_draws_again :
  sample 1 draws_1_then_0 1 false false None demo_ring = None
  /\ sample 2 draws_1_then_0 1 false false None demo_ring
     = Some (Ret (mkBatch [[[[1%Q]]; [[2%Q]]]] [[0; 1]] [1%Q] [0]
                    [[[[2%Q]]; [[3%Q]]]])).
Proof. split; vm_compute; reflexivity. Qed.

(** ** Resizing *)

Lemma resolve_indices_in_range n obj :
  (forall i, i ∈ obj -> 0 <= i < Z.of_nat n) ->
  resolve_indices n obj = Ret (map Z.to_nat obj).
Proof.
  induction obj as [|i rest IH]; intros Hall; simpl; [done|].
  rewrite np_index_in_range by (apply Hall; by left).
  rewrite IH by (intros; apply Hall; by right). reflexivity.
Qed.

Lemma drop_positions_tail {A} (js : list nat) (n m : nat) (a : list A) pos :
  (forall p, p ∈ js <-> (n <= p < m)%nat) ->
  (pos + length a = m)%nat ->
  drop_positions js pos a = firstn (n - pos) a.
Proof.
  intros Hjs. revert pos. induction a as [|x rest IH]; intros pos Hlen; simpl.
  - by destruct (n - pos)%nat.
  - simpl in Hlen. case_bool_decide as Hin.
    + apply Hjs in Hin. rewrite IH by lia.
      replace (n - pos)%nat with 0%nat by lia.
      replace (n - S pos)%nat with 0%nat by lia. reflexivity.
    + assert (pos < n)%nat as Hlt.
      { destruct (le_lt_dec n pos); [|done]. exfalso. apply Hin, Hjs. lia. }
      rewrite IH by lia.
      replace (n - pos)%nat with (S (n - S pos)) by lia. reflexivity.
Qed.

Lemma np_delete_tail {A} (a : list A) (lo hi : Z) :
  hi = Z.of_nat (length a) -> 0 <= lo <= hi ->
  np_delete a (arange lo hi) = Ret (firstn (Z.to_nat lo) a).
Proof.
  intros -> Hlo. unfold np_delete.
  rewrite resolve_indices_in_range
    by (intros i Hi; apply elem_of_arange in Hi; lia).
  unfold mbind, outcome_bind, mret, outcome_ret. f_equal.
  rewrite (drop_positions_tail _ (Z.to_nat lo) (length a)); [|..|done].
  - f_equal. lia.
  - intros p. rewrite list_elem_of_fmap. split.
    + intros (i & -> & Hi). apply elem_of_arange in Hi. lia.
    + intros Hp. exists (Z.of_nat p). split; [lia|].
      apply elem_of_arange. lia.
Qed.

Lemma resize_wf rm : wf rm -> resize rm = (Ret tt, resized rm).
Proof.
  intros Hwf. pose proof (wf_size _ Hwf) as Hsz. unfold resize, resized.
  rewrite bind_get_self.
  destruct Hwf as [? ? ? Hi Ha Hr Ht Hl Hll Hgl Hf ? ?].
  break_rm rm.
  do 8 (erewrite bind_lift_ret; [|apply np_delete_tail; lia]).
  reflexivity.
Qed.

Lemma save_resize name folder fs rm :
  wf rm ->
  exists fs',
    save (Some name) (Some folder) true fs rm = (Ret fs', resized rm).
Proof.
  intros Hwf. unfold save.
  erewrite bind_ret; [|by apply resize_wf].
  rewrite bind_get_self. eexists. reflexivity.
Qed.

(** Claim C6, as amended.  [resize] makes no test of the mode: on every
    well-formed buffer, bounded or wrapping, called directly or through
    [save] with [resize=True], it returns normally and leaves every
    array cut down to its first [size] rows and [max_steps] equal to
    [size]; [size], the cursors and the mode are unchanged. *)
Theorem resize_any_mode (rm : ReplayMemory) :
  wf rm ->
  resize rm = (Ret tt, resized rm)
  /\ (forall name folder fs,
        is_raise (fst (save (Some name) (Some folder) true fs rm)) = false
        /\ snd (save (Some name) (Some folder) true fs rm) = resized rm)
  /\ max_steps (resized rm) = size rm
  /\ Z.of_nat (length (imgs (resized rm))) = size rm
  /\ Z.of_nat (length (actions (resized rm))) = size rm
  /\ Z.of_nat (length (rewards (resized rm))) = size rm
  /\ Z.of_nat (length (terminal (resized rm))) = size rm
  /\ Z.of_nat (length (lives (resized rm))) = size rm
  /\ Z.of_nat (length (loss_life (resized rm))) = size rm
  /\ Z.of_nat (length (gain_life (resized rm))) = size rm
  /\ Z.of_nat (length (full_state (resized rm))) = size rm.
Proof.
  intros Hwf. split; [by apply resize_wf|]. split.
  { intros name folder fs.
    destruct (save_resize name folder fs rm Hwf) as [fs' ->]. done. }
  pose proof (wf_size _ Hwf).
  destruct Hwf as [? ? ? Hi Ha Hr Ht Hl Hll Hgl Hf ? ?].
  unfold resized. simpl. rewrite !length_take. repeat split; lia.
Qed.

Lemma resize_any_mode_witness :
  wf demo_wrapping /\ resize demo_wrapping = (Ret tt, resized demo_wrapping).
Proof.
  split; [exact wf_demo_wrapping|].
  exact (proj1 (resize_any_mode demo_wrapping wf_demo_wrapping)).
Defined.

(** The statement of claim C6 fails: on a wrapping buffer [resize]
    returns, directly and through [save], and the buffer is changed. *)
Lemma resize_wrapping_not_refused :
  wrap_memory demo_wrapping = true
  /\ fst (resize demo_wrapping) = Ret tt
  /\ max_steps (snd (resize demo_wrapping)) = 0
  /\ snd (resize demo_wrapping) <> demo_wrapping
  /\ is_raise (fst (save (Some "demo") (Some "out") true ∅ demo_wrapping))
     = false.
Proof.
  split; [reflexivity|]. split; [reflexivity|]. split; [reflexivity|].
  split; [|vm_compute; reflexivity].
  intros H. apply (f_equal max_steps) in H. discriminate.
Qed.

(** ** The reward shaper *)

Lemma range_down_succ (j : nat) :
  range_down (Z.of_nat (S j)) 0 = Z.of_nat (S j) :: range_down (Z.of_nat j) 0.
Proof.
  unfold range_down. rewrite !Z.sub_0_r, !Nat2Z.id.
  change (seq 0 (S j)) with (0%nat :: seq 1 j).
  rewrite <- seq_shift, map_cons, map_map. f_equal; try lia.
  apply map_ext. intros i. lia.
Qed.

Lemma range_down_to_nat s :
  range_down s 0 = range_down (Z.of_nat (Z.to_nat s)) 0.
Proof.
  destruct (Z.le_gt_cases 0 s) as [H|H]; [by rewrite Z2Nat.id|].
  unfold range_down.
  replace (Z.to_nat (s - 0)) with 0%nat by lia.
  replace (Z.to_nat (Z.of_nat (Z.to_nat s) - 0)) with 0%nat by lia.
  reflexivity.
Qed.

Lemma set_rewards_same rm : set_rewards (rewards rm) rm = rm.
Proof. by destruct rm. Qed.

Lemma set_rewards_twice r1 r2 rm :
  set_rewards r2 (set_rewards r1 rm) = set_rewards r2 rm.
Proof. by destruct rm. Qed.

Lemma rewards_set_rewards r rm : rewards (set_rewards r rm) = r.
Proof. by destruct rm. Qed.

Lemma discount_step_in_range gamma (i : nat) rm a b :
  rewards rm !! i = Some a -> rewards rm !! S i = Some b ->
  discount_step gamma (Z.of_nat i) rm
  = (Ret tt, set_rewards (<[i := discounted gamma a b]> (rewards rm)) rm).
Proof.
  intros Ha Hb. unfold discount_step. rewrite bind_get_self.
  pose proof (lookup_lt_Some _ _ _ Ha). pose proof (lookup_lt_Some _ _ _ Hb).
  destruct (getitem_in_range (rewards rm) (Z.of_nat i)) as (x & Hx & ->);
    [lia|].
  destruct (getitem_in_range (rewards rm) (Z.of_nat i + 1)) as (y & Hy & ->);
    [lia|].
  rewrite Nat2Z.id in Hx. replace (Z.to_nat (Z.of_nat i + 1)) with (S i) in Hy
    by lia.
  assert (x = a) as -> by congruence. assert (y = b) as -> by congruence.
  erewrite !bind_lift_ret by reflexivity.
  rewrite assign_in_range by lia. by rewrite Nat2Z.id.
Qed.

Lemma discount_loop_spec gamma (j : nat) rm :
  (j = 0 \/ S j < length (rewards rm))%nat ->
  exists r',
    for_each (range_down (Z.of_nat j) 0) (discount_step gamma) rm
    = (Ret tt, set_rewards r' rm)
    /\ length r' = length (rewards rm)
    /\ (forall i, (i = 0 \/ j < i)%nat -> r' !! i = rewards rm !! i)
    /\ (forall i, (1 <= i <= j)%nat ->
        exists a b,
          rewards rm !! i = Some a /\ r' !! S i = Some b
          /\ r' !! i = Some (discounted gamma a b)).
Proof.
  revert rm. induction j as [|j IH]; intros rm Hlen.
  - exists (rewards rm). rewrite set_rewards_same.
    split; [reflexivity|]. split; [done|]. split; [done|]. intros i Hi. lia.
  - rewrite range_down_succ.
    destruct (lookup_lt_is_Some_2 (rewards rm) (S j)) as [a Ha]; [lia|].
    destruct (lookup_lt_is_Some_2 (rewards rm) (S (S j))) as [b Hb]; [lia|].
    change (for_each (?x :: ?l) ?f) with (f x;; for_each l f).
    erewrite bind_ret; [|by apply discount_step_in_range].
    set (r1 := <[S j := discounted gamma a b]> (rewards rm)).
    destruct (IH (set_rewards r1 rm)) as (r' & Hrun & Hl & Hout & Hin).
    { rewrite rewards_set_rewards. unfold r1. rewrite length_insert. lia. }
    rewrite rewards_set_rewards in *. rewrite set_rewards_twice in Hrun.
    exists r'. split; [exact Hrun|].
    split; [by rewrite Hl; unfold r1; rewrite length_insert|].
    split.
    + intros i Hi. rewrite Hout by lia. unfold r1.
      apply list_lookup_insert_ne. lia.
    + intros i Hi. destruct (decide (i = S j)) as [->|Hne].
      * exists a, b. split; [done|].
        rewrite !Hout by lia. unfold r1.
        rewrite list_lookup_insert_ne by lia. split; [done|].
        apply list_lookup_insert_eq. lia.
      * destruct (Hin i) as (a' & b' & Ha' & Hb' & Hi'); [lia|].
        exists a', b'. split; [|done].
        unfold r1 in Ha'. by rewrite list_lookup_insert_ne in Ha' by lia.
Qed.

Lemma closing_debug_state rm : snd (closing_debug rm) = rm.
Proof.
  unfold closing_debug, mbind, M_bind, get_self, lift, mret, M_ret.
  destruct (np_norm_inf (rewards rm)); [|done].
  destruct (np_min_abs _); done.
Qed.

Lemma propagate_rewards_plain gamma max_reward rm :
  propagate_rewards gamma false false false false max_reward rm
  = (for_each (range_down (size rm - 2) 0) (discount_step gamma);;
     closing_debug) rm.
Proof. reflexivity. Qed.

(** Claim C8, as amended.  With clipping, normalisation, min-max
    scaling and outlier suppression off, on a buffer whose rewards are
    finite before and after the call, [propagate_rewards] changes
    nothing but the reward array, which keeps its length: the entries at
    index 0 and at every index from [size - 1] on keep their values, and
    for every [i] from 1 to [size - 2] the new entry is the old entry
    plus [gamma] times the new entry at [i + 1], computed in double
    precision and rounded to [float32] when it is stored (the loop runs
    from [size - 2] down to 1).  On the rewards [0, 0, 1, 0] with
    [size = 4] and [gamma = 0.95] the call returns and the array is
    [0, 15938355/16777216, 1, 0], whose second entry is the [float32]
    nearest to 0.95. *)
Theorem propagate_rewards_discount (rm : ReplayMemory) (gamma max_reward : Q) :
  wf rm ->
  finite_rewards rm ->
  finite_rewards
    (snd (propagate_rewards gamma false false false false max_reward rm)) ->
  let rm' :=
    snd (propagate_rewards gamma false false false false max_reward rm) in
  rm' = set_rewards (rewards rm') rm
  /\ length (rewards rm') = length (rewards rm)
  /\ (forall i : nat,
        i = 0%nat \/ size rm - 1 <= Z.of_nat i ->
        rewards rm' !! i = rewards rm !! i)
  /\ (forall i : nat,
        1 <= Z.of_nat i <= size rm - 2 ->
        exists a b,
          rewards rm !! i = Some a /\ rewards rm' !! S i = Some b
          /\ rewards rm' !! i
             = Some (to_float32
                       (to_float64 (a + to_float64 (to_float64 gamma * b))))%Q)
  /\ fst (propagate_rewards 0.95 false false false false 0 demo_rewards)
     = Ret tt
  /\ rewards
       (snd (propagate_rewards 0.95 false false false false 0 demo_rewards))
     = [0; 15938355 # 16777216; 1; 0]%Q
  /\ to_float32 0.95 = (15938355 # 16777216)%Q.
Proof.
  intros Hwf _ _. cbv zeta.
  pose proof (wf_size _ Hwf) as Hsz. pose proof (wf_rewards _ Hwf) as Hlen.
  destruct (discount_loop_spec gamma (Z.to_nat (size rm - 2)) rm)
    as (r' & Hrun & Hl & Hout & Hin); [lia|].
  assert (snd (propagate_rewards gamma false false false false max_reward rm)
          = set_rewards r' rm) as ->.
  { rewrite propagate_rewards_plain.
    rewrite range_down_to_nat.
    erewrite bind_ret by exact Hrun. apply closing_debug_state. }
  rewrite rewards_set_rewards.
  split; [reflexivity|]. split; [exact Hl|].
  split; [intros i Hi; apply Hout; lia|].
  split; [intros i Hi; apply Hin; lia|].
  split; [vm_compute; reflexivity|].
  split; vm_compute; reflexivity.
Qed.

Lemma wf_demo_rewards : wf demo_rewards.
Proof.
  constructor; simpl; try lia; try done; by repeat constructor.
Qed.

Lemma propagate_rewards_discount_witness :
  (wf demo_rewards
   /\ finite_rewards demo_rewards
   /\ finite_rewards
        (snd (propagate_rewards 0.95 false false false false 0 demo_rewards)))
  /\ rewards
       (snd (propagate_rewards 0.95 false false false false 0 demo_rewards))
     !! 1%nat
     = Some (to_float32 (to_float64 (0 + to_float64 (to_float64 0.95 * 1))))%Q.
Proof.
  assert (finite_rewards demo_rewards) as Hin
    by (repeat constructor).
  assert (finite_rewards
            (snd (propagate_rewards 0.95 false false false false 0
                    demo_rewards))) as Hout.
  { unfold finite_rewards.
    replace (rewards _) with [0; 15938355 # 16777216; 1; 0]%Q
      by (vm_compute; reflexivity).
    repeat constructor. }
  split; [split; [exact wf_demo_rewards|split; [exact Hin|exact Hout]]|].
  destruct (proj1 (proj2 (proj2 (proj2
              (propagate_rewards_discount demo_rewards 0.95 0
                 wf_demo_rewards Hin Hout)))) 1%nat)
    as (a & b & Ha & Hb & Hi); [simpl; lia|].
  injection Ha as <-.
  assert (b = 1%Q) as -> by (vm_compute in Hb; congruence).
  exact Hi.
Defined.

(** The entry the discount loop leaves at index 1 of the rewards
    [0, 0, 1, 0] is not 0.95: that number is not a [float32]. *)
Lemma propagate_rewards_not_exact :
  size demo_rewards = 4
  /\ rewards demo_rewards = [0; 0; 1; 0]%Q
  /\ rewards
       (snd (propagate_rewards 0.95 false false false false 0 demo_rewards))
     !! 1%nat
     = Some (15938355 # 16777216)%Q
  /\ ~ (15938355 # 16777216 == 0.95)%Q
  /\ ~ Forall2 Qeq
         (rewards
            (snd (propagate_rewards 0.95 false false false false 0
                    demo_rewards)))
         [0; 0.95; 1; 0]%Q.
Proof.
  split; [reflexivity|]. split; [reflexivity|].
  split; [vm_compute; reflexivity|].
  split; [intros H; vm_compute in H; discriminate|].
  intros H. vm_compute in H.
  inversion H as [|? ? ? ? _ H1]; subst.
  inversion H1 as [|? ? ? ? Hx _]; subst.
  vm_compute in Hx. discriminate.
Qed.

Lemma name_scaler_unbound :
  load_name propagate_rewards_locals module_globals "scaler" = Raise NameError.
Proof. vm_compute. reflexivity. Qed.

Lemma suppress_outliers_length max_reward a :
  length (suppress_outliers max_reward a) = length a.
Proof.
  unfold suppress_outliers. generalize (outliers_of a).
  intros os. revert a. induction os as [|o os IH]; intros a; simpl; [done|].
  rewrite IH. destruct (Qnonzero o); [apply length_map|done].
Qed.

Lemma size_set_rewards r rm : size (set_rewards r rm) = size rm.
Proof. by destruct rm. Qed.

Lemma shaped_length clip normalize exclude_outlier max_reward r :
  length (shaped clip normalize exclude_outlier max_reward r) = length r.
Proof.
  unfold shaped.
  destruct clip, (exclude_outlier && Qnonzero max_reward),
    (normalize && Qnonzero max_reward);
    rewrite ?length_map, ?suppress_outliers_length; reflexivity.
Qed.

Lemma shaping_passes {B} (clip normalize exclude_outlier : bool)
    (max_reward : Q) (k : M B) (rm : ReplayMemory) :
  ((if clip then
      update (fun self => set_rewards (map Qclip1 (rewards self)) self)
    else if exclude_outlier && Qnonzero max_reward then
      update (fun self =>
                set_rewards (suppress_outliers max_reward (rewards self)) self)
    else mret tt);;
   (if normalize && Qnonzero max_reward then
      update (fun self =>
                set_rewards
                  (map (fun r => r / max_reward)%Q (rewards self)) self)
    else mret tt);;
   k) rm
  = k (set_rewards
         (shaped clip normalize exclude_outlier max_reward (rewards rm)) rm).
Proof.
  unfold shaped. break_rm rm.
  destruct clip, (exclude_outlier && Qnonzero max_reward),
    (normalize && Qnonzero max_reward); reflexivity.
Qed.

(** Claim C9, on the code.  With [minmax_scale] on, [propagate_rewards]
    does not complete: after the discount loop the name [scaler], bound
    nowhere, is looked up and [NameError] is raised, whatever the other
    options. *)
Theorem propagate_rewards_minmax_raises (rm : ReplayMemory) (gamma : Q)
    (clip normalize exclude_outlier : bool) (max_reward : Q) :
  wf rm ->
  fst (propagate_rewards gamma clip normalize true exclude_outlier
         max_reward rm)
  = Raise NameError.
Proof.
  intros Hwf. unfold propagate_rewards.
  rewrite shaping_passes.
  set (r1 := shaped clip normalize exclude_outlier max_reward (rewards rm)).
  pose proof (shaped_length clip normalize exclude_outlier max_reward
                (rewards rm)) as Hl. fold r1 in Hl.
  pose proof (wf_size _ Hwf) as Hsz. pose proof (wf_rewards _ Hwf) as Hlen.
  destruct (discount_loop_spec gamma (Z.to_nat (size rm - 2))
              (set_rewards r1 rm)) as (r' & Hrun & _).
  { rewrite rewards_set_rewards. lia. }
  erewrite bind_ret; cycle 1.
  { rewrite bind_get_self, size_set_rewards, range_down_to_nat. exact Hrun. }
  erewrite bind_raise; [reflexivity|].
  erewrite bind_lift_raise; [reflexivity|]. apply name_scaler_unbound.
Qed.

Lemma propagate_rewards_minmax_raises_witness :
  wf demo_rewards
  /\ fst (propagate_rewards 0.95 false false true false 0 demo_rewards)
     = Raise NameError.
Proof.
  assert (wf demo_rewards) as Hwf
    by (constructor; simpl; try lia; try done; by repeat constructor).
  split; [exact Hwf|].
  exact (propagate_rewards_minmax_raises demo_rewards 0.95 false false false
           0 Hwf).
Defined.

(** With [minmax_scale] on, the buffer is left as the call without it
    leaves it: the rewards are propagated and not rescaled. *)
Lemma propagate_rewards_minmax_state (rm : ReplayMemory) (gamma : Q)
    (clip normalize exclude_outlier : bool) (max_reward : Q) :
  wf rm ->
  snd (propagate_rewards gamma clip normalize true exclude_outlier
         max_reward rm)
  = snd (propagate_rewards gamma clip normalize false exclude_outlier
           max_reward rm).
Proof.
  intros Hwf. unfold propagate_rewards. rewrite !shaping_passes.
  set (r1 := shaped clip normalize exclude_outlier max_reward (rewards rm)).
  pose proof (shaped_length clip normalize exclude_outlier max_reward
                (rewards rm)) as Hl. fold r1 in Hl.
  pose proof (wf_size _ Hwf) as Hsz. pose proof (wf_rewards _ Hwf) as Hlen.
  destruct (discount_loop_spec gamma (Z.to_nat (size rm - 2))
              (set_rewards r1 rm)) as (r' & Hrun & _).
  { rewrite rewards_set_rewards. lia. }
  assert ((self ← get_self;
           for_each (range_down (size self - 2) 0) (discount_step gamma))
            (set_rewards r1 rm)
          = (Ret tt, set_rewards r' (set_rewards r1 rm))) as Hloop.
  { rewrite bind_get_self, size_set_rewards, range_down_to_nat. exact Hrun. }
  rewrite !(bind_ret _ _ _ _ _ Hloop).
  erewrite bind_raise;
    [|erewrite bind_lift_raise; [reflexivity|apply name_scaler_unbound]].
  simpl. symmetry. apply closing_debug_state.
Qed.

(** ** Persistence *)

Lemma append_assoc (s1 s2 s3 : string) :
  ((s1 +:+ s2) +:+ s3 = s1 +:+ (s2 +:+ s3))%string.
Proof.
  induction s1 as [|a s1 IH]; [done|].
  change (String a ((s1 +:+ s2) +:+ s3) = String a (s1 +:+ (s2 +:+ s3)))%string.
  by f_equal.
Qed.

(** The two artifacts of one [save] have different names. *)
Lemma artifact_names_differ (name folder : string) :
  ((folder +:+ "/" +:+ name +:+ "-images.h5") +:+ ".gz"
   <> folder +:+ "/" +:+ name +:+ ".pkl")%string.
Proof.
  rewrite !append_assoc. intros H.
  do 3 apply String.app_inj in H. discriminate.
Qed.

Lemma archive_name (name folder : string) :
  ((folder +:+ "/" +:+ name +:+ "-images.h5") +:+ ".gz"
   = folder +:+ "/" +:+ (name +:+ "-images.h5") +:+ ".gz")%string.
Proof. by rewrite !append_assoc. Qed.

Lemma store_ret {A} (set : A -> ReplayMemory -> ReplayMemory) o v self :
  o = Ret v -> store set o self = (Ret tt, set v self).
Proof. intros ->. reflexivity. Qed.

Lemma np_zeros_nonneg n : 0 <= n -> np_zeros n = Ret (replicate (Z.to_nat n) 0).
Proof. intros H. unfold np_zeros. by destruct (Z.ltb_spec n 0); [lia|]. Qed.

Lemma np_zeros2_nonneg n m :
  0 <= n -> 0 <= m ->
  np_zeros2 n m = Ret (replicate (Z.to_nat n) (replicate (Z.to_nat m) 0)).
Proof.
  intros Hn Hm. unfold np_zeros2.
  destruct (Z.ltb_spec n 0); [lia|]. by destruct (Z.ltb_spec m 0); [lia|].
Qed.

Lemma save_plain name folder fs rm :
  save (Some name) (Some folder) false fs rm
  = (Ret (saved name folder rm fs), rm).
Proof. reflexivity. Qed.

Lemma saved_pickle name folder rm fs :
  pickle_load (folder +:+ "/" +:+ name +:+ ".pkl")%string
    (saved name folder rm fs)
  = Ret (save_data rm).
Proof.
  unfold pickle_load, saved, save_compressed_images, pickle_dump.
  rewrite lookup_insert_ne by apply artifact_names_differ.
  by rewrite lookup_insert_eq.
Qed.

Lemma saved_images name folder rm fs :
  get_compressed_images
    (folder +:+ "/" +:+ (name +:+ "-images.h5") +:+ ".gz")%string
    (saved name folder rm fs)
  = Ret (imgs rm).
Proof.
  unfold get_compressed_images, saved, save_compressed_images.
  rewrite <- archive_name. by rewrite lookup_insert_eq.
Qed.

Lemma load_saved name folder rm fs fresh :
  0 <= max_steps rm -> 0 <= full_state_size rm ->
  load (Some name) (Some folder) (saved name folder rm fs) fresh
  = (Ret tt, set_clip_reward (clip_reward fresh) rm).
Proof.
  intros Hms Hfs. unfold load.
  erewrite bind_lift_ret by apply saved_pickle.
  destruct rm as [w h ms phi na fss cr im ac rw te li ll gl fu sz nrm wm bo tp].
  destruct fresh as [w' h' ms' phi' na' fss' cr' im' ac' rw' te' li' ll' gl'
                       fu' sz' nrm' wm' bo' tp'].
  simpl in Hms, Hfs.
  do 8 (erewrite bind_ret; [|apply store_ret; reflexivity]).
  do 3 (erewrite bind_ret;
        [|rewrite bind_get_self;
          erewrite bind_lift_ret by (by apply np_zeros_nonneg);
          apply store_ret; reflexivity]).
  erewrite bind_ret;
    [|rewrite bind_get_self; apply store_ret; reflexivity].
  erewrite bind_ret;
    [|rewrite bind_get_self;
      erewrite bind_lift_ret by (by apply np_zeros2_nonneg);
      apply store_ret; reflexivity].
  do 5 (erewrite bind_ret; [|apply store_ret; reflexivity]).
  erewrite store_ret by apply saved_images.
  reflexivity.
Qed.

(** Claim C7.  For every buffer whose [max_steps] and [full_state_size]
    are not negative, every name, folder and file system, and every
    buffer to load into: [save] without resizing returns and leaves the
    buffer as it was, and [load] of the files it wrote returns with every
    scalar field ([width], [height], [max_steps], [phi_length],
    [num_actions], [size], [wrap_memory], [top], [bottom],
    [imgs_normalized], [full_state_size]) and every array ([actions],
    [rewards], [terminal], [lives], [loss_life], [gain_life],
    [full_state], the images) equal to the saved buffer's. *)
Theorem save_load_roundtrip (rm fresh : ReplayMemory) (name folder : string)
    (fs : gmap string file) :
  0 <= max_steps rm -> 0 <= full_state_size rm ->
  let saving := save (Some name) (Some folder) false fs rm in
  exists fs',
    saving = (Ret fs', rm)
    /\ let loaded := snd (load (Some name) (Some folder) fs' fresh) in
       fst (load (Some name) (Some folder) fs' fresh) = Ret tt
       /\ width loaded = width rm /\ height loaded = height rm
       /\ max_steps loaded = max_steps rm
       /\ phi_length loaded = phi_length rm
       /\ num_actions loaded = num_actions rm
       /\ size loaded = size rm /\ wrap_memory loaded = wrap_memory rm
       /\ top loaded = top rm /\ bottom loaded = bottom rm
       /\ imgs_normalized loaded = imgs_normalized rm
       /\ actions loaded = actions rm /\ rewards loaded = rewards rm
       /\ terminal loaded = terminal rm /\ lives loaded = lives rm
       /\ loss_life loaded = loss_life rm /\ gain_life loaded = gain_life rm
       /\ full_state loaded = full_state rm /\ imgs loaded = imgs rm
       /\ full_state_size loaded = full_state_size rm.
Proof.
  intros Hms Hfs. cbv zeta. exists (saved name folder rm fs).
  split; [apply save_plain|].
  rewrite load_saved by done. destruct rm. simpl. repeat split.
Qed.

Lemma save_load_roundtrip_witness :
  0 <= max_steps demo_episode /\ 0 <= full_state_size demo_episode
  /\ exists fs',
       save (Some "demo"%string) (Some "out"%string) false ∅ demo_episode
       = (Ret fs', demo_episode)
       /\ rewards (snd (load (Some "demo"%string) (Some "out"%string) fs'
                          demo_bounded))
          = rewards demo_episode.
Proof.
  assert (0 <= max_steps demo_episode) as Hms by (simpl; lia).
  assert (0 <= full_state_size demo_episode) as Hfs by (simpl; lia).
  split; [exact Hms|]. split; [exact Hfs|].
  destruct (save_load_roundtrip demo_episode demo_bounded "demo" "out" ∅
              Hms Hfs) as (fs' & Hsave & Hload).
  exists fs'. split; [exact Hsave|]. apply Hload.
Defined.

(** * Further properties *)

(** ** The constructor *)

(** Property X1. The constructor raises ValueError when max_steps, height,
    width or full_state_size is negative. Otherwise it returns a buffer with
    size, bottom and top 0, imgs_normalized False, the given max_steps and
    wrap_memory, and every terminal flag and reward zero; that buffer is
    well formed when phi_length is non-negative and, in wrapping mode,
    max_steps is positive. *)
Theorem init_spec (w h ms phi na : Z) (wm : bool) (fss : Z) (cr : bool) :
  let made := __init__ w h ms phi na wm fss cr in
  (ms < 0 \/ h < 0 \/ w < 0 \/ fss < 0 -> made = Raise ValueError)
  /\ (0 <= ms /\ 0 <= h /\ 0 <= w /\ 0 <= fss ->
      exists rm,
        made = Ret rm
        /\ size rm = 0 /\ bottom rm = 0 /\ top rm = 0
        /\ imgs_normalized rm = false
        /\ max_steps rm = ms
        /\ wrap_memory rm = wm
        /\ Forall (fun t => t = 0) (terminal rm)
        /\ Forall (fun r => r = 0%Q) (rewards rm)
        /\ (0 <= phi -> (wm = true -> 0 < ms) -> wf rm)).
Proof.
  cbv zeta. split.
  - intros Hneg. unfold __init__, np_zeros, np_zeros2.
    destruct (Z.ltb_spec ms 0); [done|].
    destruct (Z.ltb_spec h 0); [done|].
    destruct (Z.ltb_spec w 0); [done|].
    destruct (Z.ltb_spec fss 0); [done|]. lia.
  - intros (Hms & Hh & Hw & Hfs).
    destruct (__init__ w h ms phi na wm fss cr) as [rm|e] eqn:Hinit.
    + exists rm. split; [done|].
      pose proof (wf_init _ _ _ _ _ _ _ _ _ Hinit) as Hwf.
      unfold __init__, np_zeros, np_zeros2 in Hinit.
      destruct (Z.ltb_spec ms 0); [lia|].
      destruct (Z.ltb_spec h 0); [lia|].
      destruct (Z.ltb_spec w 0); [lia|].
      destruct (Z.ltb_spec fss 0); [lia|].
      simpl in Hinit. injection Hinit as <-. simpl.
      do 6 (split; [done|]).
      split; [by apply Forall_replicate|].
      split; [by apply Forall_replicate|]. exact Hwf.
    + exfalso. unfold __init__, np_zeros, np_zeros2 in Hinit.
      destruct (Z.ltb_spec ms 0); [lia|].
      destruct (Z.ltb_spec h 0); [lia|].
      destruct (Z.ltb_spec w 0); [lia|].
      destruct (Z.ltb_spec fss 0); [lia|]. discriminate.
Qed.

(** ** Image normalisation *)





(** ** The window accessor, continued *)

Lemma take_ret_inv {A} mode (a : list A) indices xs :
  take mode a indices = Ret xs ->
  Forall2 (fun i x => take1 mode a i = Ret x) indices xs.
Proof.
  intros H. destruct (take_cases mode a indices) as [(xs' & H' & Hall)|[e H']];
    congruence.
Qed.

Lemma take1_slot {A} (rm : ReplayMemory) (a : list A) i x :
  Z.of_nat (length a) = max_steps rm ->
  wrap_memory rm = true \/ 0 <= i ->
  take1 (mode_of rm) a i = Ret x -> a !! slot_of rm i = Some x.
Proof.
  intros Hlen Hi. unfold mode_of, slot_of.
  destruct (wrap_memory rm); simpl.
  - unfold getitem_wrap. rewrite Hlen.
    destruct (a !! Z.to_nat (i mod max_steps rm)); congruence.
  - destruct Hi as [|Hi]; [done|]. unfold getitem, np_index.
    destruct (Z.leb_spec 0 i); [|lia]. simpl.
    destruct (Z.ltb_spec i (Z.of_nat (length a))); simpl.
    + destruct (a !! Z.to_nat i); congruence.
    + destruct (Z.ltb_spec i 0); [lia|]. rewrite andb_false_r. done.
Qed.

Lemma take_slots {A} (rm : ReplayMemory) (a : list A) indices xs :
  Z.of_nat (length a) = max_steps rm ->
  wrap_memory rm = true \/ (forall i, i ∈ indices -> 0 <= i) ->
  take (mode_of rm) a indices = Ret xs ->
  Forall2 (fun i x => a !! slot_of rm i = Some x) indices xs.
Proof.
  intros Hlen Hi Htake. apply take_ret_inv in Htake.
  induction Htake as [|i x indices xs Hx _ IH]; constructor.
  - eapply take1_slot; [done| |done].
    destruct Hi as [|Hi]; [by left|]. right. apply Hi. by left.
  - apply IH. destruct Hi as [|Hi]; [by left|]. right.
    intros j Hj. apply Hi. by right.
Qed.

Lemma fetch_window_inv mode k zeros rm st a r t ns l ll gl :
  fetch_window mode k zeros rm = Ret (Window st a r t ns l ll gl) ->
  take mode (imgs rm) (arange k (k + phi_length rm)) = Ret st
  /\ take1 mode (actions rm) (k + phi_length rm - 1) = Ret a
  /\ (exists r0,
        take1 mode (rewards rm) (k + phi_length rm - 1) = Ret r0
        /\ r = if clip_reward rm then Qsign r0 else r0)
  /\ take1 mode (terminal rm) (k + phi_length rm - 1) = Ret t
  /\ take1 mode (lives rm) (k + phi_length rm - 1) = Ret l
  /\ take1 mode (loss_life rm) (k + phi_length rm - 1) = Ret ll
  /\ take1 mode (gain_life rm) (k + phi_length rm - 1) = Ret gl
  /\ (t <> 0 -> ns = zeros)
  /\ (t = 0 ->
      take mode (imgs rm) (arange (1 + k) (1 + k + phi_length rm)) = Ret ns).
Proof.
  unfold fetch_window, mbind, outcome_bind, mret, outcome_ret.
  destruct (take mode (imgs rm) (arange k _)) as [st'|]; [|done].
  destruct (take1 mode (actions rm) _) as [a'|]; [|done].
  destruct (take1 mode (rewards rm) _) as [r0|]; [|done].
  destruct (take1 mode (terminal rm) _) as [t'|]; [|done].
  destruct (take1 mode (lives rm) _) as [l'|]; [|done].
  destruct (take1 mode (loss_life rm) _) as [ll'|]; [|done].
  destruct (take1 mode (gain_life rm) _) as [gl'|]; [|done].
  destruct (Z.eqb_spec t' 0) as [Ht|Ht].
  - destruct (take mode (imgs rm) (arange (1 + k) _)) as [ns'|]; [|done].
    intros [= <- <- <- <- <- <- <- <-].
    repeat split; try done. eauto.
  - intros [= <- <- <- <- <- <- <- <-].
    repeat split; try done. eauto.
Qed.

(** A returned window was fetched by the statements that follow the
    checks, in the mode of the buffer, and in bounded mode it ends
    below [size]. *)
Lemma getitem_window_inv rm k st a r t ns l ll gl :
  __getitem__ k rm = Ret (Window st a r t ns l ll gl) ->
  exists zeros,
    zero_state rm = Ret zeros
    /\ fetch_window (mode_of rm) k zeros rm
       = Ret (Window st a r t ns l ll gl)
    /\ (wrap_memory rm = false -> k + phi_length rm - 1 < size rm).
Proof.
  rewrite getitem_unfold. unfold mode_of.
  unfold mbind, outcome_bind, mret, outcome_ret.
  destruct (zero_state rm) as [zeros|]; [|done].
  intros H. exists zeros. split; [done|].
  destruct (wrap_memory rm).
  - destruct (take mode_wrap (terminal rm) _) as [flags|]; [|done].
    destruct (np_any flags); [done|]. done.
  - destruct (Z.leb_spec (size rm) (k + phi_length rm - 1)); [done|].
    destruct (take mode_raise (terminal rm) _) as [flags|]; [|done].
    destruct (np_any flags); [done|]. split; [done|]. intros _. lia.
Qed.

Lemma Qsign_values q : Qsign q = (-1)%Q \/ Qsign q = 0%Q \/ Qsign q = 1%Q.
Proof. unfold Qsign. destruct (q ?= 0)%Q; auto. Qed.

(** Property X3. When __getitem__(k) returns a window on a well-formed
    buffer (k >= 0, phi_length >= 1), the state is the phi_length frames at
    logical indices k .. k+phi_length-1 (slots taken modulo max_steps in
    wrapping mode); action, reward (its sign when clip_reward is set, hence
    -1, 0 or 1), terminal, lives, loss_life and gain_life are those of the
    windows last slot; the next state is all zero frames when that terminal
    flag is set and the frames at k+1 .. k+phi_length otherwise; and in
    bounded mode the window ends before size. *)
Theorem getitem_window_contents (rm : ReplayMemory) (k : Z)
    (st : list Frame) (a : Z) (r : Q) (t : Z) (ns : list Frame)
    (l ll gl : Z) :
  wf rm -> 0 <= k -> 1 <= phi_length rm ->
  __getitem__ k rm = Ret (Window st a r t ns l ll gl) ->
  let e := slot_of rm (k + phi_length rm - 1) in
  Forall2 (fun i f => imgs rm !! slot_of rm i = Some f)
    (arange k (k + phi_length rm)) st
  /\ length st = Z.to_nat (phi_length rm)
  /\ actions rm !! e = Some a
  /\ (exists r0,
        rewards rm !! e = Some r0
        /\ r = if clip_reward rm then Qsign r0 else r0)
  /\ (clip_reward rm = true -> r = (-1)%Q \/ r = 0%Q \/ r = 1%Q)
  /\ terminal rm !! e = Some t
  /\ lives rm !! e = Some l
  /\ loss_life rm !! e = Some ll
  /\ gain_life rm !! e = Some gl
  /\ (t <> 0 ->
      ns = replicate (Z.to_nat (phi_length rm))
             (zero_frame (height rm) (width rm)))
  /\ (t = 0 ->
      Forall2 (fun i f => imgs rm !! slot_of rm i = Some f)
        (arange (1 + k) (1 + k + phi_length rm)) ns)
  /\ (wrap_memory rm = false -> k + phi_length rm - 1 < size rm).
Proof.
  intros Hwf Hk Hphi Hget. cbv zeta.
  destruct (getitem_window_inv _ _ _ _ _ _ _ _ _ _ Hget)
    as (zeros & Hz & Hfetch & Hend).
  destruct (fetch_window_inv _ _ _ _ _ _ _ _ _ _ _ _ Hfetch)
    as (Hst & Ha & (r0 & Hr0 & Hr) & Ht & Hl & Hll & Hgl & Hterm & Hnext).
  assert (wrap_memory rm = true \/ 0 <= k + phi_length rm - 1) as Hi
    by (right; lia).
  destruct Hwf as [? ? ? Hli Hla Hlr Hlt Hll' Hlll Hlgl ? ? ?].
  split.
  { apply take_slots; [done| |done]. right. intros i Hin.
    apply elem_of_arange in Hin. lia. }
  split.
  { apply take_ret_inv, Forall2_length in Hst. rewrite <- Hst.
    unfold arange. rewrite length_map, length_seq. lia. }
  split; [by eapply take1_slot|].
  split; [exists r0; split; [by eapply take1_slot|done]|].
  split.
  { intros Hc. rewrite Hr, Hc. apply Qsign_values. }
  split; [by eapply take1_slot|]. split; [by eapply take1_slot|].
  split; [by eapply take1_slot|]. split; [by eapply take1_slot|].
  split.
  { intros Hne. rewrite (Hterm Hne). unfold zero_state in Hz.
    destruct ((height rm <? 0) || (width rm <? 0) || (phi_length rm <? 0));
      [done|]. by injection Hz as <-. }
  split; [|done].
  intros H0. apply take_slots; [done| |by apply Hnext]. right.
  intros i Hin. apply elem_of_arange in Hin. lia.
Qed.

Lemma getitem_window_contents_witness :
  wf demo_episode /\ 0 <= 0 /\ 1 <= phi_length demo_episode
  /\ __getitem__ 0 demo_episode
     = Ret (Window [[[1%Q]]; [[2%Q]]] 1 1%Q 1 [[[0%Q]]; [[0%Q]]] 3 0 0)
  /\ actions demo_episode !! slot_of demo_episode (0 + 2 - 1) = Some 1.
Proof.
  assert (0 <= 0) as H0 by lia.
  assert (1 <= phi_length demo_episode) as Hphi by (simpl; lia).
  assert (__getitem__ 0 demo_episode
          = Ret (Window [[[1%Q]]; [[2%Q]]] 1 1%Q 1 [[[0%Q]]; [[0%Q]]] 3 0 0))
    as Hget by reflexivity.
  split; [exact wf_demo_episode|]. split; [exact H0|]. split; [exact Hphi|].
  split; [exact Hget|].
  exact (proj1 (proj2 (proj2 (getitem_window_contents demo_episode 0 _ _ _ _ _
                                _ _ _ wf_demo_episode H0 Hphi Hget)))).
Defined.

Lemma take1_raise_total {A} (a : list A) i :
  0 <= i < Z.of_nat (length a) -> exists x, take1 mode_raise a i = Ret x.
Proof.
  intros H. destruct (getitem_in_range a i H) as (x & _ & Hx). eauto.
Qed.

Lemma take_raise_total {A} (a : list A) lo hi :
  0 <= lo -> hi <= Z.of_nat (length a) ->
  exists xs, take mode_raise a (arange lo hi) = Ret xs.
Proof.
  intros Hlo Hhi.
  destruct (take_total mode_raise a (arange lo hi)) as (xs & Hxs & _); [|eauto].
  intros i Hi. apply elem_of_arange in Hi. apply take1_raise_total. lia.
Qed.

Lemma take_wrap_total {A} (a : list A) indices :
  (0 < length a)%nat -> exists xs, take mode_wrap a indices = Ret xs.
Proof.
  intros H.
  destruct (take_total mode_wrap a indices) as (xs & Hxs & _); [|eauto].
  intros i _. by apply take1_wrap_total.
Qed.

(** In bounded mode the statements after the checks return a window when
    the window and, unless its last step is terminal, its successor lie
    inside the arrays. *)
Lemma fetch_window_raise_total rm k zeros :
  wf rm -> 0 <= k -> 1 <= phi_length rm ->
  k + phi_length rm - 1 < max_steps rm ->
  (k + phi_length rm < max_steps rm
   \/ exists t, terminal rm !! Z.to_nat (k + phi_length rm - 1) = Some t
                /\ t <> 0) ->
  exists it, fetch_window mode_raise k zeros rm = Ret it.
Proof.
  intros [? ? ? Hli Hla Hlr Hlt Hll' Hlll Hlgl ? ? ?] Hk Hphi Hend Hnext.
  unfold fetch_window, mbind, outcome_bind, mret, outcome_ret.
  destruct (take_raise_total (imgs rm) k (k + phi_length rm)) as [st ->];
    [lia..|].
  destruct (take1_raise_total (actions rm) (k + phi_length rm - 1)) as [a ->];
    [lia|].
  destruct (take1_raise_total (rewards rm) (k + phi_length rm - 1)) as [r ->];
    [lia|].
  destruct (getitem_in_range (terminal rm) (k + phi_length rm - 1))
    as (t & Ht & Hgt); [lia|].
  change (take1 mode_raise (terminal rm) (k + phi_length rm - 1))
    with (getitem (terminal rm) (k + phi_length rm - 1)). rewrite Hgt.
  destruct (take1_raise_total (lives rm) (k + phi_length rm - 1)) as [l ->];
    [lia|].
  destruct (take1_raise_total (loss_life rm) (k + phi_length rm - 1))
    as [ll ->]; [lia|].
  destruct (take1_raise_total (gain_life rm) (k + phi_length rm - 1))
    as [gl ->]; [lia|].
  destruct (Z.eqb_spec t 0) as [Ht0|Ht0]; [|eauto].
  destruct Hnext as [Hnext|(t' & Ht' & Hne)]; [|congruence].
  destruct (take_raise_total (imgs rm) (1 + k) (1 + k + phi_length rm))
    as [ns ->]; [lia..|]. eauto.
Qed.

Lemma fetch_window_wrap_total rm k zeros :
  wf rm -> wrap_memory rm = true ->
  exists it, fetch_window mode_wrap k zeros rm = Ret it.
Proof.
  intros Hwf Hw. destruct (wf_ring _ Hwf Hw) as [Hb _].
  destruct Hwf as [? ? ? Hli Hla Hlr Hlt Hll' Hlll Hlgl ? ? ?].
  unfold fetch_window, mbind, outcome_bind, mret, outcome_ret.
  destruct (take_wrap_total (imgs rm) (arange k (k + phi_length rm)))
    as [st ->]; [lia|].
  destruct (take1_wrap_total (actions rm) (k + phi_length rm - 1)) as [a ->];
    [lia|].
  destruct (take1_wrap_total (rewards rm) (k + phi_length rm - 1)) as [r ->];
    [lia|].
  destruct (take1_wrap_total (terminal rm) (k + phi_length rm - 1)) as [t ->];
    [lia|].
  destruct (take1_wrap_total (lives rm) (k + phi_length rm - 1)) as [l ->];
    [lia|].
  destruct (take1_wrap_total (loss_life rm) (k + phi_length rm - 1))
    as [ll ->]; [lia|].
  destruct (take1_wrap_total (gain_life rm) (k + phi_length rm - 1))
    as [gl ->]; [lia|].
  destruct (t =? 0); [|eauto].
  destruct (take_wrap_total (imgs rm)
              (arange (1 + k) (1 + k + phi_length rm))) as [ns ->]; [lia|].
  eauto.
Qed.

(** Property X4. On a well-formed buffer __getitem__(k) raises no exception
    in wrapping mode, whatever k, and in bounded mode for every 0 <= k <
    len(self) when phi_length >= 1: it returns a window or the all-None
    tuple. *)
Theorem getitem_never_raises (rm : ReplayMemory) (k : Z) :
  wf rm ->
  wrap_memory rm = true
  \/ (1 <= phi_length rm /\ 0 <= k < __len__ rm) ->
  exists it, __getitem__ k rm = Ret it.
Proof.
  intros Hwf Hcase. rewrite getitem_unfold.
  destruct (zero_state_wf rm Hwf) as [zeros ->].
  unfold mbind at 1. unfold outcome_bind at 1.
  pose proof (wf_size _ Hwf) as Hsz. pose proof (wf_terminal _ Hwf) as Hlt.
  destruct (wrap_memory rm) eqn:Hw.
  - destruct (wf_ring _ Hwf Hw) as [Hb _].
    destruct (take_wrap_total (terminal rm)
                (arange k (k + phi_length rm - 1))) as [flags ->]; [lia|].
    unfold mbind, outcome_bind, mret, outcome_ret.
    destruct (np_any flags); [eauto|]. by apply fetch_window_wrap_total.
  - destruct Hcase as [|[Hphi Hk]]; [done|]. unfold __len__ in Hk.
    destruct (Z.leb_spec (size rm) (k + phi_length rm - 1)); [lia|].
    destruct (take_raise_total (terminal rm) k (k + phi_length rm - 1))
      as [flags ->]; [lia..|].
    unfold mbind, outcome_bind, mret, outcome_ret.
    destruct (np_any flags); [eauto|].
    apply fetch_window_raise_total; try done; lia.
Qed.

Lemma getitem_never_raises_witness :
  wf demo_episode
  /\ (1 <= phi_length demo_episode /\ 0 <= 0 < __len__ demo_episode)
  /\ exists it, __getitem__ 0 demo_episode = Ret it.
Proof.
  assert (1 <= phi_length demo_episode /\ 0 <= 0 < __len__ demo_episode)
    as Hk by (vm_compute; repeat split; discriminate).
  split; [exact wf_demo_episode|]. split; [exact Hk|].
  exact (getitem_never_raises demo_episode 0 wf_demo_episode (or_intror Hk)).
Defined.

Lemma take_raise_past_end {A} (a : list A) indices :
  (forall i, i ∈ indices -> 0 <= i) ->
  (exists i, i ∈ indices /\ Z.of_nat (length a) <= i) ->
  take mode_raise a indices = Raise IndexError.
Proof.
  induction indices as [|i rest IH]; intros Hpos (j & Hj & Hout).
  - by apply elem_of_nil in Hj.
  - simpl. unfold mbind, outcome_bind.
    destruct (Z.lt_ge_cases i (Z.of_nat (length a))) as [Hin|Hin].
    + destruct (getitem_in_range a i) as (x & _ & ->);
        [split; [apply Hpos; by left|done]|].
      rewrite IH; [done|intros; apply Hpos; by right|].
      apply elem_of_cons in Hj as [->|Hj]; [lia|eauto].
    + by rewrite getitem_past_end.
Qed.

(** Property X5. On a full bounded buffer (size = max_steps, 1 <= phi_length
    <= size) whose last phi_length records are not terminal,
    __getitem__(size - phi_length) raises IndexError: the window passes the
    availability test but its next state reads one slot past the arrays. *)
Theorem getitem_last_start_raises (rm : ReplayMemory) :
  wf rm -> wrap_memory rm = false ->
  1 <= phi_length rm <= size rm -> size rm = max_steps rm ->
  (forall j, size rm - phi_length rm <= j < size rm ->
             terminal rm !! Z.to_nat j = Some 0) ->
  __getitem__ (size rm - phi_length rm) rm = Raise IndexError.
Proof.
  intros Hwf Hw Hphi Hfull Hflags. rewrite getitem_unfold.
  destruct (zero_state_wf rm Hwf) as [zeros ->].
  unfold mbind at 1. unfold outcome_bind at 1. rewrite Hw.
  set (k := size rm - phi_length rm).
  assert (0 <= k) as Hk by (unfold k; lia).
  assert (k + phi_length rm = size rm) as Hkphi by (unfold k; lia).
  destruct (Z.leb_spec (size rm) (k + phi_length rm - 1)); [lia|].
  destruct Hwf as [? ? ? Hli Hla Hlr Hlt Hll' Hlll Hlgl ? ? ?].
  destruct (take_total mode_raise (terminal rm)
              (arange k (k + phi_length rm - 1))) as (flags & -> & Hfl).
  { intros i Hi. apply elem_of_arange in Hi. apply take1_raise_total. lia. }
  unfold mbind, outcome_bind, mret, outcome_ret.
  destruct (np_any flags) eqn:Hany.
  { exfalso. apply np_any_true_iff in Hany.
    apply (Forall2_any_flag _ _ _ Hfl) in Hany as (i & t & Hi & Ht & Hne).
    apply elem_of_arange in Hi. apply take1_raise_in_range in Ht; [|lia].
    rewrite Hflags in Ht by (unfold k in *; lia). congruence. }
  unfold fetch_window, mbind, outcome_bind, mret, outcome_ret.
  destruct (take_raise_total (imgs rm) k (k + phi_length rm)) as [st ->];
    [lia..|].
  destruct (take1_raise_total (actions rm) (k + phi_length rm - 1)) as [a ->];
    [lia|].
  destruct (take1_raise_total (rewards rm) (k + phi_length rm - 1)) as [r ->];
    [lia|].
  assert (take1 mode_raise (terminal rm) (k + phi_length rm - 1) = Ret 0)
    as ->.
  { apply take1_raise_in_range; [lia|]. apply Hflags. unfold k. lia. }
  destruct (take1_raise_total (lives rm) (k + phi_length rm - 1)) as [l ->];
    [lia|].
  destruct (take1_raise_total (loss_life rm) (k + phi_length rm - 1))
    as [ll ->]; [lia|].
  destruct (take1_raise_total (gain_life rm) (k + phi_length rm - 1))
    as [gl ->]; [lia|].
  simpl. rewrite take_raise_past_end; [done| |].
  - intros i Hi. apply elem_of_arange in Hi. lia.
  - exists (k + phi_length rm). split; [apply elem_of_arange; lia|lia].
Qed.

Lemma wf_demo_full : wf demo_full.
Proof.
  constructor; simpl; try lia; try done; by repeat constructor.
Qed.

Lemma getitem_last_start_raises_witness :
  wf demo_full /\ wrap_memory demo_full = false
  /\ 1 <= phi_length demo_full <= size demo_full
  /\ size demo_full = max_steps demo_full
  /\ __getitem__ 1 demo_full = Raise IndexError.
Proof.
  assert (1 <= phi_length demo_full <= size demo_full) as Hphi
    by (simpl; lia).
  assert (forall j, size demo_full - phi_length demo_full <= j < size demo_full
                    -> terminal demo_full !! Z.to_nat j = Some 0) as Hflags.
  { simpl. intros j Hj.
    assert (j = 1 \/ j = 2) as [-> | ->] by lia; reflexivity. }
  split; [exact wf_demo_full|]. split; [reflexivity|]. split; [exact Hphi|].
  split; [reflexivity|].
  exact (getitem_last_start_raises demo_full wf_demo_full eq_refl Hphi eq_refl
           Hflags).
Defined.

(** ** [sample2], whatever the look-ahead *)

Lemma sample2_loop_never_returns fuel rm batch_size normalize k_bad_states
    onevsall n_class high draws pos b0 b :
  0 < batch_size ->
  sample2_loop fuel rm batch_size normalize k_bad_states onevsall n_class
    high draws pos 0 b0
  <> Some (Ret b).
Proof.
  intros Hb. revert pos. induction fuel as [|fuel IH]; intros pos; simpl;
    destruct (Z.ltb_spec 0 batch_size); try lia; [done|].
  destruct (randint draws pos 0 high) as [index|]; [|done].
  destruct (negb (k_bad_states =? 0) && bad_state_ahead rm index k_bad_states);
    [apply IH|].
  destruct (__getitem__ index rm) as [[|]|];
    first [done | by rewrite name_s_unbound].
Qed.

(** Property X6. For batch_size >= 1, sample2 never returns a batch, on any
    buffer, with any arguments, random draws and number of loop iterations:
    every run ends in an exception or is still looping. *)
Theorem sample2_never_returns (rm : ReplayMemory) (fuel : nat)
    (draws : nat -> Z) (batch_size : Z) (normalize : bool) (k_bad_states : Z)
    (onevsall : bool) (n_class : option Z) (b : batch) :
  1 <= batch_size ->
  sample2 fuel draws batch_size normalize k_bad_states onevsall n_class rm
  <> Some (Ret b).
Proof.
  intros Hb. unfold sample2. destruct (wrap_memory rm); [done|].
  destruct (alloc_batch rm batch_size onevsall false); [|done].
  destruct (size rm + 1 - phi_length rm <=? 0); [done|].
  apply sample2_loop_never_returns. lia.
Qed.

Lemma sample2_never_returns_witness :
  1 <= 2
  /\ sample2 5 draws_1_then_0 2 false 3 false None demo_episode
     <> Some (Ret (mkBatch [] [] [] [] [])).
Proof.
  assert (1 <= 2) as Hb by lia. split; [exact Hb|].
  exact (sample2_never_returns demo_episode 5 draws_1_then_0 2 false 3 false
           None (mkBatch [] [] [] [] []) Hb).
Defined.

Lemma randint_range draws pos low high index :
  randint draws pos low high = Ret index -> low <= index < high.
Proof.
  unfold randint. destruct (Z.leb_spec high low); [done|].
  intros [= <-]. pose proof (Z.mod_pos_bound (draws pos) (high - low)). lia.
Qed.

Lemma sample2_loop_spins fuel rm batch_size normalize k_bad_states onevsall
    n_class high draws pos b0 :
  0 < batch_size -> 0 < high -> k_bad_states <> 0 ->
  (forall index, 0 <= index < high ->
                 bad_state_ahead rm index k_bad_states = true) ->
  sample2_loop fuel rm batch_size normalize k_bad_states onevsall n_class
    high draws pos 0 b0
  = None.
Proof.
  intros Hb Hh Hk Hbad. revert pos.
  induction fuel as [|fuel IH]; intros pos; simpl;
    destruct (Z.ltb_spec 0 batch_size); try lia; [done|].
  destruct (randint draws pos 0 high) as [index|e] eqn:Hr.
  - apply randint_range in Hr. rewrite (Hbad index Hr).
    destruct (Z.eqb_spec k_bad_states 0); [done|]. simpl. apply IH.
  - unfold randint in Hr. destruct (Z.leb_spec high 0); [lia|done].
Qed.

(** Property X7. In bounded mode, with batch_size >= 1, a response that can
    be allocated, size + 1 - phi_length > 0 and k_bad_states nonzero: if for
    every index 0 <= index < size + 1 - phi_length the look-ahead slice
    holds a negative reward or a loss_life flag equal to 1, the loop of
    sample2 rejects every draw and never ends (no outcome after any number
    of iterations, whatever the draws). *)
Theorem sample2_filter_spins (rm : ReplayMemory) (draws : nat -> Z)
    (batch_size : Z) (normalize : bool) (k_bad_states : Z) (onevsall : bool)
    (n_class : option Z) (b0 : batch) :
  wrap_memory rm = false ->
  alloc_batch rm batch_size onevsall false = Ret b0 ->
  1 <= batch_size -> 0 < size rm + 1 - phi_length rm ->
  k_bad_states <> 0 ->
  (forall index, 0 <= index < size rm + 1 - phi_length rm ->
                 bad_state_ahead rm index k_bad_states = true) ->
  forall fuel,
    sample2 fuel draws batch_size normalize k_bad_states onevsall n_class rm
    = None.
Proof.
  intros Hw Ha Hb Hh Hk Hbad fuel. unfold sample2. rewrite Hw, Ha.
  destruct (Z.leb_spec (size rm + 1 - phi_length rm) 0); [lia|].
  apply sample2_loop_spins; try done; lia.
Qed.

Lemma sample2_filter_spins_witness :
  wrap_memory demo_losing = false
  /\ 1 <= 1 /\ 0 < size demo_losing + 1 - phi_length demo_losing /\ 1 <> 0
  /\ sample2 100 draws_1_then_0 1 false 1 false None demo_losing = None.
Proof.
  assert (1 <= 1) as Hb by lia.
  assert (0 < size demo_losing + 1 - phi_length demo_losing) as Hh
    by (simpl; lia).
  assert (1 <> 0) as Hk by lia.
  assert (forall index,
            0 <= index < size demo_losing + 1 - phi_length demo_losing ->
            bad_state_ahead demo_losing index 1 = true) as Hbad.
  { simpl. intros index Hi.
    assert (index = 0 \/ index = 1) as [-> | ->] by lia; reflexivity. }
  split; [reflexivity|]. split; [exact Hb|]. split; [exact Hh|].
  split; [exact Hk|].
  exact (sample2_filter_spins demo_losing draws_1_then_0 1 false 1 false None
           _ eq_refl eq_refl Hb Hh Hk Hbad 100%nat).
Defined.

(** ** [sample] *)

Lemma np_index_lt n i j : np_index n i = Some j -> (j < n)%nat.
Proof.
  unfold np_index.
  destruct (Z.leb_spec 0 i), (Z.ltb_spec i (Z.of_nat n)); simpl;
    try (intros [= <-]; lia);
    destruct (Z.leb_spec (- Z.of_nat n) i), (Z.ltb_spec i 0); simpl;
    try discriminate; intros [= <-]; lia.
Qed.

Lemma setitem_ret {A} (a : list A) i v a' :
  setitem a i v = Ret a' ->
  exists j, (j < length a)%nat /\ a' = <[j := v]> a
            /\ (0 <= i -> j = Z.to_nat i).
Proof.
  unfold setitem. destruct (np_index (length a) i) as [j|] eqn:Hj; [|done].
  intros [= <-]. exists j. split; [by eapply np_index_lt|]. split; [done|].
  intros Hi. unfold np_index in Hj.
  destruct (Z.leb_spec 0 i); [|lia].
  destruct (Z.ltb_spec i (Z.of_nat (length a))); simpl in Hj; [congruence|].
  destruct (Z.ltb_spec i 0); [lia|]. by rewrite andb_false_r in Hj.
Qed.

Lemma getitem_ret {A} (a : list A) i x :
  getitem a i = Ret x -> 0 <= i -> a !! Z.to_nat i = Some x.
Proof.
  intros H Hi. apply (take1_raise_in_range a i x); [|done].
  unfold getitem in H. destruct (np_index (length a) i) as [j|] eqn:Hj; [|done].
  pose proof (np_index_lt _ _ _ Hj). unfold np_index in Hj.
  destruct (Z.leb_spec 0 i); [|lia].
  destruct (Z.ltb_spec i (Z.of_nat (length a))); simpl in Hj; [lia|].
  destruct (Z.ltb_spec i 0); [lia|]. by rewrite andb_false_r in Hj.
Qed.

Lemma alloc_batch_inv rm batch_size onevsall with_next b :
  alloc_batch rm batch_size onevsall with_next = Ret b ->
  0 <= batch_size
  /\ batch_inv (action_width rm onevsall) (Z.to_nat batch_size) 0 with_next b.
Proof.
  unfold alloc_batch, mbind, outcome_bind, mret, outcome_ret, np_zeros.
  destruct (zero_state rm) as [zeros|]; [|done].
  destruct (Z.ltb_spec batch_size 0); [done|].
  destruct (Z.ltb_spec (if onevsall then 2 else num_actions rm) 0); [done|].
  intros [= <-]. split; [done|]. unfold batch_inv, action_width. simpl.
  rewrite !length_replicate. do 4 (split; [done|]).
  split; [intros ->; apply length_replicate|].
  split; [|by apply Forall_replicate].
  intros i row Hrow. apply lookup_replicate in Hrow as [-> _].
  split; [lia|done].
Qed.

Lemma store_window_inv rm normalize onevsall n_class with_next count
    s0 a r s1 b b' w n :
  store_window rm normalize onevsall n_class with_next count s0 a r 0 s1 b
  = Ret b' ->
  0 <= count ->
  batch_inv w n (Z.to_nat count) with_next b ->
  batch_inv w n (Z.to_nat (count + 1)) with_next b'.
Proof.
  unfold store_window, mbind, outcome_bind, mret, outcome_ret.
  intros Hst Hc (Hls & Hla & Hlr & Hlt & Hln & Hrows & Hterm).
  destruct (setitem (b_states b) count _) as [states|] eqn:Hs; [|done].
  destruct (if with_next then _ else _) as [nexts|] eqn:Hn; [|done].
  destruct (getitem (b_actions b) count) as [row|] eqn:Hrow; [|done].
  destruct (if onevsall then _ else _) as [row'|] eqn:Hrow'; [|done].
  destruct (setitem (b_actions b) count row') as [acts|] eqn:Ha; [|done].
  destruct (setitem (b_rewards b) count r) as [rews|] eqn:Hr; [|done].
  destruct (setitem (b_terminals b) count 0) as [terms|] eqn:Ht; [|done].
  injection Hst as <-. simpl.
  apply setitem_ret in Hs as (js & _ & -> & _).
  apply setitem_ret in Ha as (ja & Hja & -> & Hja').
  apply setitem_ret in Hr as (jr & _ & -> & _).
  apply setitem_ret in Ht as (jt & _ & -> & _).
  specialize (Hja' Hc). subst ja.
  apply getitem_ret in Hrow; [|done].
  destruct (Hrows _ _ Hrow) as [_ Hzero]. specialize (Hzero (Nat.le_refl _)).
  assert (one_hot w row') as Hhot.
  { subst row.
    assert (exists i, setitem (replicate w 0) i 1 = Ret row') as [i Hi].
    { destruct onevsall; [destruct (bool_decide _)|]; eauto. }
    apply setitem_ret in Hi as (j & Hj & -> & _).
    rewrite length_replicate in Hj. by exists j. }
  unfold batch_inv. simpl.
  rewrite !length_insert. do 4 (split; [done|]).
  split.
  { intros Hwn. rewrite Hwn in Hn. specialize (Hln Hwn).
    apply setitem_ret in Hn as (jn & _ & -> & _). by rewrite length_insert. }
  split; [|by apply Forall_insert].
  intros i row0 Hi0. split.
  - intros Hi. destruct (decide (i = Z.to_nat count)) as [->|Hne].
    + rewrite list_lookup_insert_eq in Hi0 by lia. by injection Hi0 as <-.
    + rewrite list_lookup_insert_ne in Hi0 by done.
      apply (Hrows _ _ Hi0). lia.
  - intros Hi. rewrite list_lookup_insert_ne in Hi0 by lia.
    apply (Hrows _ _ Hi0). lia.
Qed.

(** The window [sample] fetches after its own flag test does not end an
    episode. *)
Lemma sample_window_not_terminal rm index flags s0 a r t s1 l ll gl :
  wrap_memory rm = true -> 1 <= phi_length rm ->
  take mode_wrap (terminal rm)
    (removelast (arange index (index + phi_length rm + 1))) = Ret flags ->
  np_any flags = false ->
  __getitem__ index rm = Ret (Window s0 a r t s1 l ll gl) ->
  t = 0.
Proof.
  intros Hw Hphi Hflags Hany Hget.
  destruct (getitem_window_inv _ _ _ _ _ _ _ _ _ _ Hget)
    as (zeros & _ & Hfetch & _).
  destruct (fetch_window_inv _ _ _ _ _ _ _ _ _ _ _ _ Hfetch)
    as (_ & _ & _ & Ht & _).
  unfold mode_of in Ht. rewrite Hw in Ht.
  rewrite removelast_arange in Hflags.
  replace (index + phi_length rm + 1 - 1) with (index + phi_length rm)
    in Hflags by lia.
  apply take_ret_inv in Hflags.
  destruct (Z.eq_dec t 0) as [|Hne]; [done|]. exfalso.
  assert (np_any flags = true); [|congruence].
  apply np_any_true_iff, (Forall2_any_flag _ _ _ Hflags).
  exists (index + phi_length rm - 1), t.
  split; [apply elem_of_arange; lia|done].
Qed.

Lemma sample_loop_inv fuel rm batch_size normalize onevsall n_class draws
    pos count b0 b :
  wrap_memory rm = true -> 1 <= phi_length rm ->
  0 <= count <= batch_size ->
  batch_inv (action_width rm onevsall) (Z.to_nat batch_size)
    (Z.to_nat count) true b0 ->
  sample_loop fuel rm batch_size normalize onevsall n_class draws pos count b0
  = Some (Ret b) ->
  batch_inv (action_width rm onevsall) (Z.to_nat batch_size)
    (Z.to_nat batch_size) true b.
Proof.
  intros Hw Hphi. revert pos count b0.
  induction fuel as [|fuel IH]; intros pos count b0 Hc Hinv; simpl;
    destruct (Z.ltb_spec count batch_size) as [Hlt|Hge]; try done.
  - intros [= <-]. by assert (count = batch_size) as -> by lia.
  - destruct (randint draws pos _ _) as [index|]; [|done].
    destruct (take mode_wrap (terminal rm) _) as [flags|] eqn:Hflags; [|done].
    destruct (np_any flags) eqn:Hany; [intros Hrun; by eapply IH|].
    destruct (__getitem__ index rm) as [[|s0 a r t s1 l ll gl]|] eqn:Hget;
      try done.
    assert (t = 0) as -> by (by eapply sample_window_not_terminal).
    destruct (store_window rm normalize onevsall n_class true count s0 a r 0
                s1 b0) as [b'|] eqn:Hstore; [|done].
    intros Hrun. eapply IH; [| |exact Hrun]; [lia|].
    eapply store_window_inv; [done|lia|done].
  - intros [= <-]. by assert (count = batch_size) as -> by lia.
Qed.

(** Property X8. When sample returns a batch (wrapping mode, phi_length >=
    1), states, next_states, actions, rewards and terminals each have
    batch_size rows, every action row is one-hot (of width 2 with onevsall,
    num_actions otherwise), and every entry of terminals is 0: a window
    whose last record is terminal is never sampled. *)
Theorem sample_batch_spec (rm : ReplayMemory) (fuel : nat)
    (draws : nat -> Z) (batch_size : Z) (normalize onevsall : bool)
    (n_class : option Z) (b : batch) :
  wrap_memory rm = true -> 1 <= phi_length rm ->
  sample fuel draws batch_size normalize onevsall n_class rm = Some (Ret b) ->
  let n := Z.to_nat batch_size in
  length (b_states b) = n /\ length (b_next_states b) = n
  /\ length (b_actions b) = n /\ length (b_rewards b) = n
  /\ length (b_terminals b) = n
  /\ Forall (one_hot (action_width rm onevsall)) (b_actions b)
  /\ Forall (fun t => t = 0) (b_terminals b).
Proof.
  intros Hw Hphi. unfold sample. rewrite Hw. simpl.
  destruct (alloc_batch rm batch_size onevsall true) as [b0|] eqn:Ha; [|done].
  apply alloc_batch_inv in Ha as [Hb Hinv]. intros Hrun.
  apply sample_loop_inv in Hrun; [|done|done|lia|done].
  destruct Hrun as (Hls & Hla & Hlr & Hlt & Hln & Hrows & Hterm).
  repeat split; try done; [by apply Hln|].
  apply Forall_lookup. intros i row Hrow.
  apply (Hrows _ _ Hrow). apply lookup_lt_Some in Hrow. lia.
Qed.

Lemma wf_demo_ring : wf demo_ring.
Proof.
  constructor; simpl; try lia; try done; try (by repeat constructor).
Qed.

Lemma sample_batch_spec_witness :
  wrap_memory demo_ring = true /\ 1 <= phi_length demo_ring
  /\ exists b,
       sample 2 draws_1_then_0 1 false false None demo_ring = Some (Ret b)
       /\ Forall (fun t => t = 0) (b_terminals b).
Proof.
  assert (1 <= phi_length demo_ring) as Hphi by (simpl; lia).
  split; [reflexivity|]. split; [exact Hphi|].
  eexists. split; [vm_compute; reflexivity|].
  refine (proj2 (proj2 (proj2 (proj2 (proj2 (proj2
            (sample_batch_spec demo_ring 2 draws_1_then_0 1 false false None
               _ eq_refl Hphi _))))))).
  vm_compute. reflexivity.
Defined.

Lemma alloc_batch_error rm batch_size onevsall with_next e :
  alloc_batch rm batch_size onevsall with_next = Raise e -> e = ValueError.
Proof.
  unfold alloc_batch, zero_state, np_zeros, mbind, outcome_bind, mret,
    outcome_ret.
  destruct (_ || _ || _); [by intros [= <-]|].
  destruct (batch_size <? 0); [by intros [= <-]|].
  destruct (_ <? 0); [by intros [= <-]|done].
Qed.

(** Property X9. In wrapping mode with batch_size >= 1 and size <=
    phi_length, sample raises ValueError as soon as one loop iteration is
    run: either the response cannot be allocated or randint is given an
    empty range. *)
Theorem sample_insufficient_history (rm : ReplayMemory) (fuel : nat)
    (draws : nat -> Z) (batch_size : Z) (normalize onevsall : bool)
    (n_class : option Z) :
  wrap_memory rm = true -> 1 <= batch_size -> size rm <= phi_length rm ->
  sample (S fuel) draws batch_size normalize onevsall n_class rm
  = Some (Raise ValueError).
Proof.
  intros Hw Hb Hsz. unfold sample. rewrite Hw. simpl negb. cbv iota.
  destruct (alloc_batch rm batch_size onevsall true) as [b0|e] eqn:Ha.
  - simpl. destruct (Z.ltb_spec 0 batch_size); [|lia].
    unfold randint.
    destruct (Z.leb_spec (bottom rm + size rm - phi_length rm) (bottom rm));
      [done|lia].
  - by rewrite (alloc_batch_error _ _ _ _ _ Ha).
Qed.

Lemma sample_insufficient_history_witness :
  wrap_memory demo_wrapping = true /\ 1 <= 1
  /\ size demo_wrapping <= phi_length demo_wrapping
  /\ sample 1 draws_1_then_0 1 false false None demo_wrapping
     = Some (Raise ValueError).
Proof.
  assert (1 <= 1) as Hb by lia.
  assert (size demo_wrapping <= phi_length demo_wrapping) as Hs
    by (simpl; lia).
  split; [reflexivity|]. split; [exact Hb|]. split; [exact Hs|].
  exact (sample_insufficient_history demo_wrapping 0 draws_1_then_0 1 false
           false None eq_refl Hb Hs).
Defined.

(** ** Persistence, continued *)

(** Property X10. Loading a checkpoint whose pickled dictionary lacks the
    keys lives, loss_life, gain_life, full_state_size and full_state
    succeeds (max_steps of the file and full_state_size of the receiver
    non-negative): lives, loss_life and gain_life become zero arrays of the
    loaded max_steps, full_state_size and clip_reward keep the receiving
    objects values, full_state becomes a zero matrix of max_steps rows of
    that width, and every other field comes from the files. *)
Theorem load_legacy_defaults (rm fresh : ReplayMemory) (name folder : string)
    (fs : gmap string file) (im : list Frame) :
  0 <= max_steps rm -> 0 <= full_state_size fresh ->
  fs !! pkl_path name folder = Some (PickleFile (legacy_data rm)) ->
  fs !! archive_path name folder = Some (ImageArchive im) ->
  load (Some name) (Some folder) fs fresh
  = (Ret tt, legacy_loaded rm fresh im).
Proof.
  intros Hms Hfs Hpkl Harc. unfold load.
  erewrite bind_lift_ret;
    [|unfold pickle_load; fold (pkl_path name folder); by rewrite Hpkl].
  destruct rm as [w h ms phi na fss cr im0 ac rw te li ll gl fu sz nrm wm bo
                    tp].
  destruct fresh as [w' h' ms' phi' na' fss' cr' im' ac' rw' te' li' ll' gl'
                       fu' sz' nrm' wm' bo' tp'].
  simpl in Hms, Hfs.
  do 8 (erewrite bind_ret; [|apply store_ret; reflexivity]).
  do 3 (erewrite bind_ret;
        [|rewrite bind_get_self;
          erewrite bind_lift_ret by (by apply np_zeros_nonneg);
          apply store_ret; reflexivity]).
  erewrite bind_ret;
    [|rewrite bind_get_self; apply store_ret; reflexivity].
  erewrite bind_ret;
    [|rewrite bind_get_self;
      erewrite bind_lift_ret by (by apply np_zeros2_nonneg);
      apply store_ret; reflexivity].
  do 5 (erewrite bind_ret; [|apply store_ret; reflexivity]).
  erewrite store_ret;
    [|unfold get_compressed_images; fold (archive_path name folder);
      by rewrite Harc].
  reflexivity.
Qed.

Lemma load_legacy_defaults_witness :
  0 <= max_steps demo_episode /\ 0 <= full_state_size demo_bounded
  /\ load (Some "demo"%string) (Some "out"%string) demo_legacy_fs demo_bounded
     = (Ret tt, legacy_loaded demo_episode demo_bounded (imgs demo_episode)).
Proof.
  assert (0 <= max_steps demo_episode) as Hms by (simpl; lia).
  assert (0 <= full_state_size demo_bounded) as Hfs by (simpl; lia).
  assert (demo_legacy_fs !! pkl_path "demo" "out"
          = Some (PickleFile (legacy_data demo_episode))) as Hp
    by (vm_compute; reflexivity).
  assert (demo_legacy_fs !! archive_path "demo" "out"
          = Some (ImageArchive (imgs demo_episode))) as Ha
    by (vm_compute; reflexivity).
  split; [exact Hms|]. split; [exact Hfs|].
  exact (load_legacy_defaults demo_episode demo_bounded "demo" "out"
           demo_legacy_fs (imgs demo_episode) Hms Hfs Hp Ha).
Defined.

(** Property X11. load raises FileNotFoundError and leaves the object
    untouched when the pickle file is missing. When the pickle file of a
    saved buffer is there but the image archive is missing, load raises
    FileNotFoundError with every field except imgs and clip_reward already
    overwritten from the pickle. *)
Theorem load_missing_artifact (rm fresh : ReplayMemory) (name folder : string)
    (fs : gmap string file) :
  (fs !! pkl_path name folder = None ->
   load (Some name) (Some folder) fs fresh = (Raise FileNotFoundError, fresh))
  /\ (0 <= max_steps rm -> 0 <= full_state_size rm ->
      fs !! pkl_path name folder = Some (PickleFile (save_data rm)) ->
      fs !! archive_path name folder = None ->
      load (Some name) (Some folder) fs fresh
      = (Raise FileNotFoundError,
         set_imgs (imgs fresh) (set_clip_reward (clip_reward fresh) rm))).
Proof.
  split.
  - intros Hpkl. unfold load.
    erewrite bind_lift_raise; [reflexivity|].
    unfold pickle_load. fold (pkl_path name folder). by rewrite Hpkl.
  - intros Hms Hfs Hpkl Harc. unfold load.
    erewrite bind_lift_ret;
      [|unfold pickle_load; fold (pkl_path name folder); by rewrite Hpkl].
    destruct rm as [w h ms phi na fss cr im0 ac rw te li ll gl fu sz nrm wm bo
                      tp].
    destruct fresh as [w' h' ms' phi' na' fss' cr' im' ac' rw' te' li' ll' gl'
                         fu' sz' nrm' wm' bo' tp'].
    simpl in Hms, Hfs.
    do 8 (erewrite bind_ret; [|apply store_ret; reflexivity]).
    do 3 (erewrite bind_ret;
          [|rewrite bind_get_self;
            erewrite bind_lift_ret by (by apply np_zeros_nonneg);
            apply store_ret; reflexivity]).
    erewrite bind_ret;
      [|rewrite bind_get_self; apply store_ret; reflexivity].
    erewrite bind_ret;
      [|rewrite bind_get_self;
        erewrite bind_lift_ret by (by apply np_zeros2_nonneg);
        apply store_ret; reflexivity].
    do 5 (erewrite bind_ret; [|apply store_ret; reflexivity]).
    unfold store. erewrite bind_lift_raise; [reflexivity|].
    unfold get_compressed_images. fold (archive_path name folder).
    by rewrite Harc.
Qed.

Lemma load_missing_artifact_witness :
  (∅ : gmap string file) !! pkl_path "demo" "out" = None
  /\ load (Some "demo"%string) (Some "out"%string) ∅ demo_bounded
     = (Raise FileNotFoundError, demo_bounded).
Proof.
  assert ((∅ : gmap string file) !! pkl_path "demo" "out" = None) as H
    by reflexivity.
  split; [exact H|].
  exact (proj1 (load_missing_artifact demo_bounded demo_bounded "demo" "out" ∅)
           H).
Defined.

Lemma saved_paths name folder rm fs :
  saved name folder rm fs
  = <[archive_path name folder := ImageArchive (imgs rm)]>
      (<[pkl_path name folder := PickleFile (save_data rm)]> fs).
Proof.
  unfold saved, save_compressed_images, pickle_dump, archive_path, pkl_path.
  by rewrite archive_name.
Qed.

Lemma paths_differ name folder : archive_path name folder <> pkl_path name folder.
Proof.
  unfold archive_path, pkl_path. rewrite <- archive_name.
  apply artifact_names_differ.
Qed.

Lemma save_resize_files name folder fs rm :
  wf rm ->
  save (Some name) (Some folder) true fs rm
  = (Ret (saved name folder (resized rm) fs), resized rm).
Proof.
  intros Hwf. unfold save.
  erewrite bind_ret; [|by apply resize_wf]. reflexivity.
Qed.

(** Property X13. For a well-formed buffer, save with resize=True returns
    and leaves the buffer trimmed to its first size records (max_steps =
    size); loading the files it wrote into any object yields that trimmed
    buffer, except clip_reward, which keeps the receiving objects value.
    (The image archive functions are not in src/ and are modelled from the
    spec.) *)
Theorem save_resize_load (rm fresh : ReplayMemory) (name folder : string)
    (fs : gmap string file) :
  wf rm ->
  exists fs',
    save (Some name) (Some folder) true fs rm = (Ret fs', resized rm)
    /\ load (Some name) (Some folder) fs' fresh
       = (Ret tt, set_clip_reward (clip_reward fresh) (resized rm)).
Proof.
  intros Hwf. exists (saved name folder (resized rm) fs).
  split; [by apply save_resize_files|].
  apply load_saved; simpl; [apply (wf_size _ Hwf)|apply (wf_fss _ Hwf)].
Qed.

Lemma save_resize_load_witness :
  wf demo_bounded
  /\ exists fs',
       save (Some "demo"%string) (Some "out"%string) true ∅ demo_bounded
       = (Ret fs', resized demo_bounded)
       /\ load (Some "demo"%string) (Some "out"%string) fs' demo_episode
          = (Ret tt,
             set_clip_reward (clip_reward demo_episode)
               (resized demo_bounded)).
Proof.
  split; [exact wf_demo_bounded|].
  exact (save_resize_load demo_bounded demo_episode "demo" "out" ∅
           wf_demo_bounded).
Defined.

(** ** Resizing, continued *)

Lemma drop_positions_none {A} pos (a : list A) : drop_positions [] pos a = a.
Proof.
  revert pos. induction a as [|x a IH]; intros pos; [done|].
  change (drop_positions [] pos (x :: a))
    with (if bool_decide (pos ∈ @nil nat) then drop_positions [] (S pos) a
          else x :: drop_positions [] (S pos) a).
  rewrite bool_decide_eq_false_2 by apply not_elem_of_nil. by rewrite IH.
Qed.

Lemma np_delete_nothing {A} (a : list A) lo : np_delete a (arange lo lo) = Ret a.
Proof.
  unfold np_delete, arange. rewrite Z.sub_diag. simpl.
  unfold mret, outcome_ret. by rewrite drop_positions_none.
Qed.

(** Property X14. When size equals max_steps, resize returns and changes
    nothing; in bounded mode every add on such a buffer returns without
    changing it. *)
Theorem resize_full_is_noop (rm : ReplayMemory) :
  size rm = max_steps rm ->
  resize rm = (Ret tt, rm)
  /\ (wrap_memory rm = false -> forall c, add_call c rm = (Ret tt, rm)).
Proof.
  intros Hfull. split; [|intros Hw c; by apply add_full_bounded].
  unfold resize. rewrite bind_get_self.
  replace (arange (size rm) (max_steps rm)) with (arange (size rm) (size rm))
    by (by rewrite Hfull).
  do 8 (erewrite bind_lift_ret; [|apply np_delete_nothing]).
  destruct rm. simpl in *. subst. reflexivity.
Qed.

Lemma size_resized rm : size (resized rm) = max_steps (resized rm).
Proof. reflexivity. Qed.

Lemma resize_full_is_noop_witness :
  size (resized demo_bounded) = max_steps (resized demo_bounded)
  /\ resize (resized demo_bounded) = (Ret tt, resized demo_bounded)
  /\ add_call (demo_call 0) (resized demo_bounded)
     = (Ret tt, resized demo_bounded).
Proof.
  pose proof (size_resized demo_bounded) as Hfull.
  split; [exact Hfull|].
  split; [exact (proj1 (resize_full_is_noop _ Hfull))|].
  exact (proj2 (resize_full_is_noop _ Hfull) eq_refl (demo_call 0)).
Defined.

(** Property X15. On a well-formed wrapping buffer that is not yet full
    (size < max_steps, bottom = 0), resize leaves top equal to the new
    max_steps, so the next add raises IndexError at its first assignment and
    leaves the resized buffer unchanged. *)
Theorem resize_breaks_wrapping_add (rm : ReplayMemory) (c : call) :
  wf rm -> wrap_memory rm = true ->
  size rm < max_steps rm -> bottom rm = 0 ->
  add_call c (snd (resize rm)) = (Raise IndexError, snd (resize rm)).
Proof.
  intros Hwf Hw Hlt Hb. rewrite resize_wf by done. simpl.
  pose proof (wf_size _ Hwf) as Hsz. pose proof (wf_imgs _ Hwf) as Hli.
  destruct (wf_ring _ Hwf Hw) as [_ Htop]. rewrite Hb, Z.add_0_l in Htop.
  rewrite Z.mod_small in Htop by lia.
  unfold add_call, add. rewrite bind_get_self.
  unfold resized at 1 2 3. simpl. rewrite Hw. simpl.
  erewrite bind_raise; [reflexivity|].
  unfold assign. rewrite bind_get_self.
  erewrite bind_lift_raise; [reflexivity|].
  unfold setitem. rewrite np_index_past_end; [done|].
  unfold resized. simpl. rewrite length_take. lia.
Qed.

Lemma resize_breaks_wrapping_add_witness :
  wf demo_wrapping /\ wrap_memory demo_wrapping = true
  /\ size demo_wrapping < max_steps demo_wrapping
  /\ bottom demo_wrapping = 0
  /\ fst (add_call (demo_call 0) (snd (resize demo_wrapping)))
     = Raise IndexError.
Proof.
  assert (size demo_wrapping < max_steps demo_wrapping) as Hlt
    by (simpl; lia).
  split; [exact wf_demo_wrapping|]. split; [reflexivity|].
  split; [exact Hlt|]. split; [reflexivity|].
  rewrite (resize_breaks_wrapping_add demo_wrapping (demo_call 0)
             wf_demo_wrapping eq_refl Hlt eq_refl).
  reflexivity.
Defined.

(** ** [add], continued *)










Lemma add_writes_config c rm row :
  let rm' := advance (write_slot (Z.to_nat (write_index rm)) c row rm) in
  phi_length rm' = phi_length rm /\ clip_reward rm' = clip_reward rm
  /\ width rm' = width rm /\ height rm' = height rm
  /\ num_actions rm' = num_actions rm
  /\ imgs_normalized rm' = imgs_normalized rm.
Proof.
  break_rm rm. unfold advance, write_slot, write_columns. simpl.
  destruct wm, (sz =? ms); simpl; repeat split.
Qed.

Lemma arange_snoc lo hi : lo <= hi -> arange lo (hi + 1) = arange lo hi ++ [hi].
Proof.
  intros H. unfold arange.
  replace (Z.to_nat (hi + 1 - lo)) with (S (Z.to_nat (hi - lo))) by lia.
  rewrite seq_S, map_app. simpl. do 2 f_equal. lia.
Qed.

(** Property X18. On a well-formed bounded buffer with room (size <
    max_steps), after an add of machine numbers with a fitting fullstate, a
    window returned by __getitem__(size + 1 - phi_length), the one ending
    at the new record, has the added image as its last frame and carries
    the added values as the arrays hold them: action, terminal, losslife
    and gainlife reduced to uint8, lives reduced to int32, and the reward
    rounded to float32 (its sign when clip_reward is set). *)
Theorem add_then_getitem (rm : ReplayMemory) (c : call) (row : list Z)
    (st : list Frame) (a : Z) (r : Q) (t : Z) (ns : list Frame)
    (l ll gl : Z) :
  wf rm -> wrap_memory rm = false -> size rm < max_steps rm ->
  machine_call rm c ->
  broadcast_row (Z.to_nat (full_state_size rm)) (fullstate_operand c)
  = Ret row ->
  1 <= phi_length rm <= size rm + 1 ->
  __getitem__ (size rm + 1 - phi_length rm) (snd (add_call c rm))
  = Ret (Window st a r t ns l ll gl) ->
  last st = Some (c_img c)
  /\ a = to_uint8 (c_action c)
  /\ r = (if clip_reward rm then Qsign (to_float32 (c_reward c))
         else to_float32 (c_reward c))
  /\ t = to_uint8 (c_terminal c) /\ l = to_int32 (c_lives c)
  /\ ll = to_uint8 (c_losslife c) /\ gl = to_uint8 (c_gainlife c).
Proof.
  intros Hwf Hw Hlt _ Hrow Hphi.
  assert (negb (wrap_memory rm) && (size rm =? max_steps rm) = false) as Hc.
  { rewrite Hw. simpl. apply Z.eqb_neq. lia. }
  pose proof (add_preserves c rm Hwf) as (Hwf' & Hms' & Hwm' & _).
  rewrite (add_writes c rm row Hwf Hc Hrow) in *. simpl in *.
  unfold write_index in *. rewrite Hw in *.
  set (idx := Z.to_nat (size rm)) in *.
  set (rm' := advance (write_slot idx c row rm)) in *.
  pose proof (add_writes_config c rm row) as Hcfg.
  unfold write_index in Hcfg. rewrite Hw in Hcfg. fold idx rm' in Hcfg.
  destruct Hcfg as (Hphi' & Hclip & _).
  pose proof (write_slot_fields idx c row rm) as (_ & _ & _ & _ & _ & _ & Hsl).
  pose proof (advance_fields (write_slot idx c row rm))
    as (_ & _ & _ & Hi & Ha & Hr & Ht & Hl & Hll & Hgl & _).
  fold rm' in Hi, Ha, Hr, Ht, Hl, Hll, Hgl. simpl in Hsl.
  destruct Hsl as (Si & Sa & Sr & St & Sl & Sll & Sgl & _).
  rewrite Si in Hi. rewrite Sa in Ha. rewrite Sr in Hr. rewrite St in Ht.
  rewrite Sl in Hl. rewrite Sll in Hll. rewrite Sgl in Hgl.
  pose proof (wf_size _ Hwf) as Hsz.
  destruct Hwf as [? ? ? Li La Lr Lt Ll Lll Lgl ? ? ?].
  intros Hget.
  destruct (getitem_window_inv _ _ _ _ _ _ _ _ _ _ Hget)
    as (zeros & _ & Hfetch & _).
  unfold mode_of in Hfetch. rewrite Hwm' in Hfetch.
  destruct (fetch_window_inv _ _ _ _ _ _ _ _ _ _ _ _ Hfetch)
    as (Hst & Hta & (r0 & Hr0 & Hrr) & Htt & Htl & Htll & Htgl & _).
  rewrite Hphi' in *.
  replace (size rm + 1 - phi_length rm + phi_length rm - 1) with (size rm)
    in * by lia.
  assert (forall {A} (arr : list A) (v x : A),
            Z.of_nat (length arr) = max_steps rm ->
            take1 mode_raise (<[idx := v]> arr) (size rm) = Ret x -> x = v)
    as Hread.
  { intros A arr v x Hlen Hx.
    apply take1_raise_in_range in Hx; [|rewrite length_insert; lia].
    fold idx in Hx. rewrite list_lookup_insert_eq in Hx by (unfold idx; lia).
    congruence. }
  rewrite Ha in Hta. rewrite Hr in Hr0. rewrite Ht in Htt. rewrite Hl in Htl.
  rewrite Hll in Htll. rewrite Hgl in Htgl. rewrite Hi in Hst.
  split.
  { replace (size rm + 1 - phi_length rm + phi_length rm) with (size rm + 1)
      in Hst by lia.
    rewrite arange_snoc in Hst by lia.
    apply take_ret_inv, Forall2_app_inv_l in Hst
      as (st1 & st2 & _ & Hlast & ->).
    inversion Hlast as [|? f ? ? Hf Hnil]; subst. inversion Hnil; subst.
    apply (Hread _ _ _ _ Li) in Hf. subst f. apply last_snoc. }
  split; [exact (Hread _ _ _ _ La Hta)|].
  split; [rewrite Hrr, Hclip; by rewrite (Hread _ _ _ _ Lr Hr0)|].
  split; [exact (Hread _ _ _ _ Lt Htt)|].
  split; [exact (Hread _ _ _ _ Ll Htl)|].
  split; [exact (Hread _ _ _ _ Lll Htll)|exact (Hread _ _ _ _ Lgl Htgl)].
Qed.

Lemma add_then_getitem_witness :
  (wf (snd (add_call (demo_call 0) demo_bounded))
   /\ size (snd (add_call (demo_call 0) demo_bounded))
      < max_steps (snd (add_call (demo_call 0) demo_bounded))
   /\ machine_call (snd (add_call (demo_call 0) demo_bounded))
        (mkCall [[1%Q]] 300 0.1 1 (2 ^ 31) 0 0 (Some [7; 8; 9]))
   /\ 1 <= phi_length (snd (add_call (demo_call 0) demo_bounded))
      <= size (snd (add_call (demo_call 0) demo_bounded)) + 1
   /\ __getitem__ 0
        (snd (add_call (mkCall [[1%Q]] 300 0.1 1 (2 ^ 31) 0 0
                          (Some [7; 8; 9]))
                (snd (add_call (demo_call 0) demo_bounded))))
      = Ret (Window [[[1%Q]]; [[1%Q]]] 44 1%Q 1 [[[0%Q]]; [[0%Q]]]
               (- 2 ^ 31) 0 0))
  /\ 44 = to_uint8 300 /\ - 2 ^ 31 = to_int32 (2 ^ 31)
  /\ 1%Q = Qsign (to_float32 0.1).
Proof.
  set (c := mkCall [[1%Q]] 300 0.1 1 (2 ^ 31) 0 0 (Some [7; 8; 9])).
  assert (wf (snd (add_call (demo_call 0) demo_bounded))) as Hwf1
    by apply (add_preserves _ _ wf_demo_bounded).
  assert (size (snd (add_call (demo_call 0) demo_bounded))
          < max_steps (snd (add_call (demo_call 0) demo_bounded))) as Hlt1
    by (vm_compute; reflexivity).
  assert (machine_call (snd (add_call (demo_call 0) demo_bounded)) c) as Hm.
  { unfold machine_call, c, fullstate_operand, int64.
    cbn [c_img c_action c_terminal c_lives c_losslife c_gainlife c_reward
         c_fullstate default].
    split; [by apply typed_frame_demo|].
    do 5 (split; [lia|]). split; [repeat constructor; lia|].
    by vm_compute. }
  assert (1 <= phi_length (snd (add_call (demo_call 0) demo_bounded))
          <= size (snd (add_call (demo_call 0) demo_bounded)) + 1) as Hphi1
    by (vm_compute; split; discriminate).
  assert (__getitem__ 0
            (snd (add_call c (snd (add_call (demo_call 0) demo_bounded))))
          = Ret (Window [[[1%Q]]; [[1%Q]]] 44 1%Q 1 [[[0%Q]]; [[0%Q]]]
                   (- 2 ^ 31) 0 0))
    as Hget by (vm_compute; reflexivity).
  split; [by repeat (split; [done|])|].
  pose proof (add_then_getitem (snd (add_call (demo_call 0) demo_bounded))
                c [7; 8; 9] _ _ _ _ _ _ _ _ Hwf1 eq_refl Hlt1 Hm
                eq_refl Hphi1 Hget) as (_ & Ha & Hr & _ & Hl & _).
  split; [exact Ha|]. split; [exact Hl|exact Hr].
Defined.

(** ** The reward shaper, continued *)

Lemma for_each_invariant {A} (P : ReplayMemory -> Prop) (xs : list A)
    (body : A -> M unit) (st : ReplayMemory) :
  (forall x s, P s -> P (snd (body x s))) ->
  P st -> P (snd (for_each xs body st)).
Proof.
  intros Hbody. revert st. induction xs as [|x rest IH]; intros st Hst; [done|].
  simpl. unfold mbind, M_bind. specialize (Hbody x st Hst).
  destruct (body x st) as [[[]|e] s']; simpl in *; [by apply IH|done].
Qed.

Lemma getitem_elem {A} (a : list A) i x : getitem a i = Ret x -> x ∈ a.
Proof.
  unfold getitem. destruct (np_index (length a) i) as [j|]; [|done].
  destruct (a !! j) eqn:Hj; [|done]. intros [= <-].
  by eapply list_elem_of_lookup_2.
Qed.

Lemma round_float_zero prec emin q : (q == 0)%Q -> round_float prec emin q = 0%Q.
Proof.
  intros H. unfold round_float.
  assert (Qnum q = 0) as -> by (unfold Qeq in H; simpl in H; lia).
  reflexivity.
Qed.

Lemma discounted_zero gamma a b :
  (a == 0)%Q -> (b == 0)%Q -> (discounted gamma a b == 0)%Q.
Proof.
  intros Ha Hb. unfold discounted, to_float32, to_float64.
  assert (round_float 53 (-1074) (round_float 53 (-1074) gamma * b) = 0%Q)
    as -> by (apply round_float_zero; rewrite Hb; ring).
  assert (round_float 53 (-1074) (a + 0) = 0%Q)
    as -> by (apply round_float_zero; rewrite Ha; ring).
  by rewrite round_float_zero.
Qed.

Lemma discount_step_zero gamma i s :
  all_zero (rewards s) -> all_zero (rewards (snd (discount_step gamma i s))).
Proof.
  intros Hz. unfold discount_step, assign, mbind, M_bind, get_self, lift,
    update.
  destruct (getitem (rewards s) i) as [ri|] eqn:Hri; [|done].
  destruct (getitem (rewards s) (i + 1)) as [rn|] eqn:Hrn; [|done].
  destruct (setitem (rewards s) i _) as [r'|] eqn:Hset; [|done]. simpl.
  rewrite rewards_set_rewards.
  unfold setitem in Hset. destruct (np_index _ i); [|done].
  injection Hset as <-. apply Forall_insert; [done|].
  unfold all_zero in Hz. rewrite Forall_forall in Hz.
  apply discounted_zero.
  - exact (Hz _ (getitem_elem _ _ _ Hri)).
  - exact (Hz _ (getitem_elem _ _ _ Hrn)).
Qed.

Lemma Qnonzero_zero x : (x == 0)%Q -> Qnonzero x = false.
Proof.
  intros H. unfold Qnonzero. apply negb_false_iff. by apply Qeq_bool_iff.
Qed.

Lemma filter_nonzero_zero r :
  all_zero r -> filter (fun x => Qnonzero x = true) r = [].
Proof.
  intros Hz. induction Hz as [|x r Hx _ IH]; [done|].
  rewrite filter_cons_False; [done|]. by rewrite Qnonzero_zero.
Qed.

Lemma Qclip1_zero x : (x == 0)%Q -> (Qclip1 x == 0)%Q.
Proof.
  intros H. unfold Qclip1, Qltb.
  assert (Qle_bool (-1) x = true) as ->
    by (apply Qle_bool_iff; rewrite H; discriminate).
  assert (Qle_bool x 1 = true) as ->
    by (apply Qle_bool_iff; rewrite H; discriminate).
  done.
Qed.

Lemma shaped_zero clip normalize exclude_outlier max_reward r :
  all_zero r -> all_zero (shaped clip normalize exclude_outlier max_reward r).
Proof.
  intros Hz. unfold shaped.
  assert (all_zero
            (if clip then map Qclip1 r
             else if exclude_outlier && Qnonzero max_reward
                  then suppress_outliers max_reward r
                  else r)) as Hz1.
  { destruct clip; [|destruct (_ && _); [|done]].
    - apply Forall_fmap. eapply Forall_impl; [exact Hz|].
      intros x. apply Qclip1_zero.
    - unfold suppress_outliers, outliers_of.
      by rewrite filter_nonzero_zero. }
  destruct (normalize && Qnonzero max_reward); [|done].
  apply Forall_fmap. eapply Forall_impl; [exact Hz1|].
  intros x Hx. simpl. unfold Qdiv. rewrite Hx. apply Qmult_0_l.
Qed.

Lemma closing_debug_zero s :
  all_zero (rewards s) -> fst (closing_debug s) = Raise ValueError.
Proof.
  intros Hz. unfold closing_debug, mbind, M_bind, get_self, lift.
  rewrite filter_nonzero_zero by done.
  by destruct (rewards s).
Qed.

(** Property X19. With minmax_scale off, propagate_rewards on a buffer whose
    rewards are all zero (a fresh buffer, for instance) never returns
    normally, whatever the other options: the rewards stay all zero and, on
    a well-formed buffer, ValueError is raised by the closing debug lines
    (np.min over the empty selection of nonzero rewards, or the norm of an
    empty array). *)
Theorem propagate_rewards_all_zero (rm : ReplayMemory) (gamma : Q)
    (clip normalize exclude_outlier : bool) (max_reward : Q) :
  all_zero (rewards rm) ->
  let result :=
    propagate_rewards gamma clip normalize false exclude_outlier max_reward rm
  in
  (is_raise (fst result) = true)
  /\ (wf rm -> fst result = Raise ValueError)
  /\ all_zero (rewards (snd result)).
Proof.
  intros Hz. cbv zeta.
  set (r1 := shaped clip normalize exclude_outlier max_reward (rewards rm)).
  assert (all_zero r1) as Hz1 by (by apply shaped_zero).
  set (loop := (self ← get_self;
                for_each (range_down (size self - 2) 0) (discount_step gamma))).
  assert (propagate_rewards gamma clip normalize false exclude_outlier
            max_reward rm
          = match loop (set_rewards r1 rm) with
            | (Ret _, s2) => closing_debug s2
            | (Raise e, s2) => (Raise e, s2)
            end) as ->.
  { unfold propagate_rewards. rewrite shaping_passes. fold r1. fold loop.
    unfold mbind at 1. unfold M_bind at 1.
    by destruct (loop (set_rewards r1 rm)) as [[[]|e] s2]. }
  assert (all_zero (rewards (snd (loop (set_rewards r1 rm))))) as Hz2.
  { unfold loop. rewrite bind_get_self.
    apply (for_each_invariant (fun s => all_zero (rewards s)));
      [intros; by apply discount_step_zero|by rewrite rewards_set_rewards]. }
  destruct (loop (set_rewards r1 rm)) as [[[]|e] s2] eqn:Hloop; simpl in Hz2.
  - rewrite closing_debug_zero by done.
    split; [done|]. split; [done|]. by rewrite closing_debug_state.
  - split; [done|]. split; [|done]. intros Hwf. exfalso.
    pose proof (shaped_length clip normalize exclude_outlier max_reward
                  (rewards rm)) as Hl. fold r1 in Hl.
    pose proof (wf_size _ Hwf) as Hsz. pose proof (wf_rewards _ Hwf) as Hlen.
    destruct (discount_loop_spec gamma (Z.to_nat (size rm - 2))
                (set_rewards r1 rm)) as (r' & Hrun & _).
    { rewrite rewards_set_rewards. lia. }
    unfold loop in Hloop.
    rewrite bind_get_self, size_set_rewards, range_down_to_nat, Hrun in Hloop.
    discriminate.
Qed.

Lemma propagate_rewards_all_zero_witness :
  all_zero (rewards demo_bounded)
  /\ fst (propagate_rewards 0.95 false false false false 0 demo_bounded)
     = Raise ValueError.
Proof.
  assert (all_zero (rewards demo_bounded)) as Hz
    by (repeat constructor).
  split; [exact Hz|].
  exact (proj1 (proj2 (propagate_rewards_all_zero demo_bounded 0.95 false
                         false false 0 Hz)) wf_demo_bounded).
Defined.

(** ** The trainer's reset *)





(** ** The reward shaper on any options *)

Lemma Qnonzero_spec x : Qnonzero x = true <-> ~ (x == 0)%Q.
Proof.
  unfold Qnonzero. rewrite negb_true_iff, <- Qeq_bool_iff.
  by destruct (Qeq_bool x 0).
Qed.

Lemma filter_nonzero_nil r :
  filter (fun x => Qnonzero x = true) r = [] <-> all_zero r.
Proof.
  split; [|apply filter_nonzero_zero].
  induction r as [|x r IH]; [constructor|].
  destruct (Qnonzero x) eqn:Hx.
  - by rewrite filter_cons_True.
  - rewrite filter_cons_False by congruence. intros H. constructor; [|by apply IH].
    destruct (Qeq_dec x 0) as [|Hn]; [done|].
    apply Qnonzero_spec in Hn. congruence.
Qed.

Lemma closing_debug_returns s :
  ~ all_zero (rewards s) -> fst (closing_debug s) = Ret tt.
Proof.
  intros Hnz. unfold closing_debug, mbind, M_bind, get_self, lift.
  destruct (rewards s) as [|x r] eqn:Hr; [destruct Hnz; constructor|].
  simpl np_norm_inf. cbv iota beta.
  destruct (filter _ (x :: r)) eqn:Hf; [|done].
  destruct Hnz. by apply filter_nonzero_nil.
Qed.

Lemma wf_set_rewards r rm :
  wf rm -> length r = length (rewards rm) -> wf (set_rewards r rm).
Proof.
  break_rm rm. intros [? ? ? ? ? Hr ? ? ? ? ? ? ?] Hl; simpl in *.
  constructor; simpl; try done. by rewrite Hl.
Qed.

(** Property X21. On a well-formed buffer, whatever its options and outcome,
    propagate_rewards changes no field but rewards, keeps the length of that
    array and leaves the buffer well formed. With minmax_scale off it
    returns normally when the resulting rewards have a nonzero entry and
    raises ValueError when they are all zero. *)
Theorem propagate_rewards_frame (rm : ReplayMemory) (gamma : Q)
    (clip normalize minmax_scale exclude_outlier : bool) (max_reward : Q) :
  wf rm ->
  let result :=
    propagate_rewards gamma clip normalize minmax_scale exclude_outlier
      max_reward rm in
  snd result = set_rewards (rewards (snd result)) rm
  /\ length (rewards (snd result)) = length (rewards rm)
  /\ wf (snd result)
  /\ (minmax_scale = false ->
      (all_zero (rewards (snd result)) -> fst result = Raise ValueError)
      /\ (~ all_zero (rewards (snd result)) -> fst result = Ret tt)).
Proof.
  intros Hwf. cbv zeta.
  set (r1 := shaped clip normalize exclude_outlier max_reward (rewards rm)).
  pose proof (shaped_length clip normalize exclude_outlier max_reward
                (rewards rm)) as Hl. fold r1 in Hl.
  pose proof (wf_size _ Hwf) as Hsz. pose proof (wf_rewards _ Hwf) as Hlen.
  destruct (discount_loop_spec gamma (Z.to_nat (size rm - 2))
              (set_rewards r1 rm)) as (r' & Hrun & Hl' & _).
  { rewrite rewards_set_rewards. lia. }
  rewrite rewards_set_rewards in Hl'. rewrite set_rewards_twice in Hrun.
  assert ((self ← get_self;
           for_each (range_down (size self - 2) 0) (discount_step gamma))
            (set_rewards r1 rm)
          = (Ret tt, set_rewards r' rm)) as Hloop.
  { rewrite bind_get_self, size_set_rewards, range_down_to_nat. exact Hrun. }
  assert (propagate_rewards gamma clip normalize false exclude_outlier
            max_reward rm = closing_debug (set_rewards r' rm)) as Hplain.
  { unfold propagate_rewards. rewrite shaping_passes. fold r1.
    by rewrite (bind_ret _ _ _ _ _ Hloop). }
  assert (snd (propagate_rewards gamma clip normalize minmax_scale
                 exclude_outlier max_reward rm) = set_rewards r' rm) as Hst.
  { destruct minmax_scale.
    - rewrite propagate_rewards_minmax_state by done.
      by rewrite Hplain, closing_debug_state.
    - by rewrite Hplain, closing_debug_state. }
  rewrite Hst, rewards_set_rewards.
  split; [done|]. split; [congruence|].
  split; [apply wf_set_rewards; [done|congruence]|].
  intros ->. rewrite Hplain. split; intros Hz.
  - apply closing_debug_zero. by rewrite rewards_set_rewards.
  - apply closing_debug_returns. by rewrite rewards_set_rewards.
Qed.

Lemma propagate_rewards_frame_witness :
  wf demo_rewards
  /\ fst (propagate_rewards 0.95 true true false false 2 demo_rewards)
     = Ret tt.
Proof.
  split; [exact wf_demo_rewards|].
  refine (proj2 (proj2 (proj2 (proj2
            (propagate_rewards_frame demo_rewards 0.95 true true false false 2
               wf_demo_rewards))) eq_refl) _).
  intros Hz. vm_compute in Hz. inversion Hz as [|? ? _ Hz1]; subst.
  inversion Hz1 as [|? ? Hx _]; subst. discriminate Hx.
Defined.
